(** * Knight's dialer: the five walk counters of [knight_dialer.py]

    A shallow embedding of [src/knight_dialer.py].  Python integers are
    [Z], tuples and lists are [list], the two module-level dictionaries are
    [gmap]s, and a call that raises is a [result] carrying the exception.
    The [print] calls of the source write to standard output only and are
    left out: no value the functions return depends on them. *)

From Stdlib Require Import ZArith String Ascii.
From stdpp Require Import base numbers list list_numbers gmap strings.

Local Open Scope Z_scope.

(** ** Exceptions and results *)

Inductive exn : Set :=
| KeyError            (* a dictionary has no such key *)
| IndexError          (* a list index is out of range *)
| RecursionError      (* the interpreter's recursion limit is reached *)
| UnboundLocalError.  (* a local name is read before it is bound *)

Inductive result (A : Type) : Type :=
| Ok (a : A)
| Raise (e : exn).
Arguments Ok {A} a.
Arguments Raise {A} e.

#[global] Instance result_ret : MRet result := fun A a => Ok a.
#[global] Instance result_bind : MBind result := fun A B f m =>
  match m with
  | Ok a => f a
  | Raise e => Raise e
  end.

(** [for x in xs: body], threading the loop's variables as a state; the
    first iteration that raises ends the loop. *)
Fixpoint for_in {A S : Type} (xs : list A) (body : A → S → result S) (s : S)
  : result S :=
  match xs with
  | [] => Ok s
  | x :: xs' => s' ← body x s; for_in xs' body s'
  end.

(** [l[i]] on a Python list or tuple: a negative index counts from the end. *)
Definition py_index {A : Type} (l : list A) (i : Z) : result A :=
  let n := Z.of_nat (length l) in
  let j := if bool_decide (i < 0) then i + n else i in
  if bool_decide (0 ≤ j < n) then
    match l !! Z.to_nat j with
    | Some x => Ok x
    | None => Raise IndexError
    end
  else Raise IndexError.

(** [l[i] = v] on a Python list. *)
Definition py_setitem {A : Type} (l : list A) (i : Z) (v : A) : result (list A) :=
  let n := Z.of_nat (length l) in
  let j := if bool_decide (i < 0) then i + n else i in
  if bool_decide (0 ≤ j < n) then Ok (<[Z.to_nat j := v]> l)
  else Raise IndexError.

(** [d[k]] on a dictionary. *)
Definition dict_index {V : Type} (d : gmap Z V) (k : Z) : result V :=
  match d !! k with
  | Some v => Ok v
  | None => Raise KeyError
  end.

(** ** The graph, in its two representations *)

Definition NEIGHBORS_MAP : gmap Z (list Z) :=
  list_to_map
    [ (1, [6; 8]);
      (2, [7; 9]);
      (3, [4; 8]);
      (4, [3; 9; 0]);
      (5, []);
      (6, [1; 7; 0]);
      (7, [2; 6]);
      (8, [1; 3]);
      (9, [2; 4]);
      (0, [4; 6]) ].

Definition NEIGHBORS_MATRIX : gmap Z (list Z) :=
  list_to_map
    [ (0, [0; 0; 0; 0; 1; 0; 1; 0; 0; 0]);
      (1, [0; 0; 0; 0; 0; 0; 1; 0; 1; 0]);
      (2, [0; 0; 0; 0; 0; 0; 0; 1; 0; 1]);
      (3, [0; 0; 0; 1; 0; 0; 0; 0; 1; 0]);
      (4, [1; 0; 0; 1; 0; 0; 0; 0; 0; 1]);
      (5, [0; 0; 0; 0; 0; 0; 0; 0; 0; 0]);
      (6, [1; 1; 0; 0; 0; 0; 0; 1; 0; 0]);
      (7, [0; 0; 1; 0; 0; 0; 1; 0; 0; 0]);
      (8, [0; 1; 0; 1; 0; 0; 0; 0; 0; 0]);
      (9, [0; 0; 1; 0; 1; 0; 0; 0; 0; 0]) ].

Definition neighbors (position : Z) : result (list Z) :=
  dict_index NEIGHBORS_MAP position.

(** ** Enumeration and plain recursion

    The recursive functions take the call depth the interpreter still
    allows as [fuel]; a call made at depth 0 raises [RecursionError]. *)

(** The generator is modelled by the list of the sequences it yields, in
    the order it yields them. *)
Fixpoint yield_sequences (fuel : nat) (starting_position num_hops : Z)
    (sequence : option (list Z)) : result (list (list Z)) :=
  match fuel with
  | O => Raise RecursionError
  | S fuel' =>
    let sequence :=
      match sequence with
      | None => [starting_position]
      | Some s => s
      end in
    if bool_decide (num_hops = 0) then Ok [sequence]
    else
      ns ← neighbors starting_position;
      for_in ns (fun neighbor yielded =>
        ys ← yield_sequences fuel' neighbor (num_hops - 1)
               (Some (sequence ++ [neighbor]));
        Ok (yielded ++ ys)) []
  end.

Definition count_sequences (fuel : nat) (starting_position num_hops : Z)
  : result Z :=
  seqs ← yield_sequences fuel starting_position num_hops None;
  for_in seqs (fun _ num_sequences => Ok (num_sequences + 1)) 0.

Fixpoint count_sequences_rec (fuel : nat) (start_position num_hops : Z)
  : result Z :=
  match fuel with
  | O => Raise RecursionError
  | S fuel' =>
    if bool_decide (num_hops = 0) then Ok 1
    else
      ns ← neighbors start_position;
      for_in ns (fun position num_sequences =>
        c ← count_sequences_rec fuel' position (num_hops - 1);
        Ok (num_sequences + c)) 0
  end.

(** ** Memoized recursion

    [helper] closes over the dictionary [cache] of its enclosing call; the
    dictionary is threaded through as a state. *)

Fixpoint helper (fuel : nat) (position num_hops : Z) (cache : gmap (Z * Z) Z)
  : result (Z * gmap (Z * Z) Z) :=
  match fuel with
  | O => Raise RecursionError
  | S fuel' =>
    match cache !! (position, num_hops) with
    | Some v => Ok (v, cache)
    | None =>
      if bool_decide (num_hops = 0) then Ok (1, cache)
      else
        ns ← neighbors position;
        '(num_sequences, cache) ←
          for_in ns (fun neighbor '(num_sequences, cache) =>
            '(c, cache) ← helper fuel' neighbor (num_hops - 1) cache;
            Ok (num_sequences + c, cache)) (0, cache);
        Ok (num_sequences, <[(position, num_hops) := num_sequences]> cache)
    end
  end.

Definition count_sequences_mem (fuel : nat) (start_position num_hops : Z)
  : result Z :=
  '(res, _) ← helper fuel start_position num_hops ∅;
  Ok res.

(** ** Bottom-up dynamic programming *)

(** The local variables of [count_sequences_dyn]. *)
Record dyn_state : Type := DynState {
  prior_case : list Z;
  current_case : list Z;
  current_num_hops : Z
}.

(** The body of the [while] loop.  Its last statement,
    [prior_case = current_case], makes both names refer to the list just
    filled; the next round binds [current_case] to a fresh list before it
    writes to it. *)
Definition dyn_body (st : dyn_state) : result dyn_state :=
  let current_case := replicate 10 0 in
  let current_num_hops := current_num_hops st + 1 in
  current_case ←
    for_in (seqZ 0 10) (fun position current_case =>
      ns ← neighbors position;
      for_in ns (fun neighbor current_case =>
        old ← py_index current_case position;
        p ← py_index (prior_case st) neighbor;
        py_setitem current_case position (old + p)) current_case)
      current_case;
  Ok (DynState current_case current_case current_num_hops).

(** [while current_num_hops <= num_hops: body], for at most [n] rounds.
    [current_num_hops] grows by one in each round, so the guard fails
    within [n] rounds as soon as [num_hops - current_num_hops < n]
    ([dyn_while_exit], [count_sequences_dyn_loop_exit]). *)
Fixpoint dyn_while (n : nat) (num_hops : Z) (st : dyn_state) : result dyn_state :=
  if bool_decide (current_num_hops st ≤ num_hops) then
    match n with
    | O => Ok st
    | S n' => st' ← dyn_body st; dyn_while n' num_hops st'
    end
  else Ok st.

Definition count_sequences_dyn (start_position num_hops : Z) : result Z :=
  st ← dyn_while (Z.to_nat num_hops) num_hops
         {| prior_case := replicate 10 1;
            current_case := replicate 10 0;
            current_num_hops := 1 |};
  py_index (current_case st) start_position.

(** ** Matrix power by repeated squaring *)

(** What [matrix_multiply] is applied to: the dictionary [NEIGHBORS_MATRIX]
    (rows under the keys 0..9) or a list of rows. *)
Inductive matrix : Type :=
| MDict (d : gmap Z (list Z))
| MList (l : list (list Z)).

(** [len(M)] *)
Definition mat_len (M : matrix) : Z :=
  match M with
  | MDict d => Z.of_nat (size d)
  | MList l => Z.of_nat (length l)
  end.

(** [M[i]] *)
Definition mat_row (M : matrix) (i : Z) : result (list Z) :=
  match M with
  | MDict d => dict_index d i
  | MList l => py_index l i
  end.

Definition matrix_multiply (A B : matrix) : result (list (list Z)) :=
  let A_rows := mat_len A in
  _ ← mat_row A 0;
  let B_rows := mat_len B in
  b0 ← mat_row B 0;
  let B_cols := Z.of_nat (length b0) in
  let result := (fun _ => replicate (Z.to_nat B_cols) 0) <$> seqZ 0 A_rows in
  for_in (seqZ 0 A_rows) (fun row result =>
    for_in (seqZ 0 B_cols) (fun col result =>
      for_in (seqZ 0 B_rows) (fun i result =>
        r_row ← py_index result row;
        r ← py_index r_row col;
        a_row ← mat_row A row;
        a ← py_index a_row i;
        b_row ← mat_row B i;
        b ← py_index b_row col;
        r_row' ← py_setitem r_row col (r + a * b);
        py_setitem result row r_row') result) result) result.

(** The digits of [bin], most significant first. *)
Fixpoint bin_digits (p : positive) : string :=
  match p with
  | xH => "1"
  | xO p' => bin_digits p' +:+ "0"
  | xI p' => bin_digits p' +:+ "1"
  end.

(** [bin(n)] *)
Definition bin (n : Z) : string :=
  match n with
  | Z0 => "0b0"
  | Zpos p => "0b" +:+ bin_digits p
  | Zneg p => "-0b" +:+ bin_digits p
  end.

(** [s[k:]] for [0 <= k] *)
Fixpoint str_from (k : nat) (s : string) : string :=
  match k, s with
  | O, _ => s
  | S k', EmptyString => EmptyString
  | S k', String _ s' => str_from k' s'
  end.

(** [reversed(s)], as the list of the characters it yields *)
Definition reversed (s : string) : list ascii :=
  reverse (list_ascii_of_string s).

(** [enumerate(xs)] *)
Definition enumerate {A : Type} (xs : list A) : list (Z * A) :=
  imap (fun i x => (Z.of_nat i, x)) xs.

(** The local variables of the loop of [count_sequences_log];
    [power_of_2] is unbound until the first iteration. *)
Record log_state : Type := LogState {
  accum : list (list Z);
  power_of_2 : option matrix
}.

Definition log_body (it : Z * ascii) (st : log_state) : result log_state :=
  let '(bit_num, bit) := it in
  power_of_2 ←
    (if bool_decide (bit_num = 0) then Ok (MDict NEIGHBORS_MATRIX)
     else
       match power_of_2 st with
       | None => Raise UnboundLocalError
       | Some p => m ← matrix_multiply p p; Ok (MList m)
       end);
  accum ←
    (if bool_decide (bit = "1"%char)
     then matrix_multiply (MList (accum st)) power_of_2
     else Ok (accum st));
  Ok (LogState accum (Some power_of_2)).

Definition count_sequences_log (start_position num_hops : Z) : result Z :=
  st ← for_in (enumerate (reversed (str_from 2 (bin num_hops)))) log_body
         {| accum :=
              (fun j => (fun i => if bool_decide (i = j) then 1 else 0)
                          <$> seqZ 0 10) <$> seqZ 0 10;
            power_of_2 := None |};
  m ← matrix_multiply (MList (accum st)) (MList (replicate 10 [1]));
  row ← py_index m start_position;
  py_index row 0.

(** ** The recurrence of the specification

    [count(p, 0) = 1] and [count(p, h) = Σ count(n, h-1)] over the
    neighbours [n] of [p] in the adjacency list. *)

Definition Zsum (l : list Z) : Z := foldr Z.add 0 l.
Arguments Zsum : simpl never.

Definition nbrs (p : Z) : list Z := default [] (NEIGHBORS_MAP !! p).

Fixpoint count_spec (h : nat) (p : Z) : Z :=
  match h with
  | O => 1
  | S h' => Zsum (count_spec h' <$> nbrs p)
  end.

Definition valid_node (p : Z) : Prop := 0 ≤ p ≤ 9.

(** ** Invariants of the counters that read the adjacency list *)

(** Every entry of the cache holds the value of the recurrence at its key. *)
Definition cache_ok (cache : gmap (Z * Z) Z) : Prop :=
  ∀ p h v, cache !! (p, h) = Some v → 0 ≤ h → v = count_spec (Z.to_nat h) p.

(** The vector of the recurrence's values after [k] hops. *)
Definition row (k : nat) : list Z := count_spec k <$> seqZ 0 10.

(** ** Matrices as lists of rows *)

(** The rows of a matrix, in the order of their indices. *)
Definition to_list (M : matrix) : list (list Z) :=
  match M with
  | MList l => l
  | MDict d => (fun i => default [] (d !! i)) <$> seqZ 0 (Z.of_nat (size d))
  end.

(** The entry in row [i] and column [k], 0 outside the matrix. *)
Definition get (A : list (list Z)) (i k : nat) : Z :=
  default 0 (A !! i ≫= fun r => r !! k).

(** The [n] by [p] table of the values of [f]. *)
Definition tab (n p : nat) (f : nat → nat → Z) : list (list Z) :=
  (fun i => f i <$> seq 0 p) <$> seq 0 n.

(** The product of two matrices, with the dimensions [matrix_multiply]
    reads off its operands. *)
Definition mmul (A B : list (list Z)) : list (list Z) :=
  tab (length A) (length (default [] (B !! 0%nat)))
    (fun i j => Zsum ((fun k => get A i k * get B k j) <$> seq 0 (length B))).

Definition dims (n m : nat) (A : list (list Z)) : Prop :=
  length A = n ∧ Forall (fun r => length r = m) A.

(** [M] is an [n] by [m] matrix all of whose rows can be read. *)
Definition is_mat (n m : nat) (M : matrix) : Prop :=
  mat_len M = Z.of_nat n
  ∧ dims n m (to_list M)
  ∧ ∀ i r, to_list M !! i = Some r → mat_row M (Z.of_nat i) = Ok r.

(** Writing one cell of a table. *)
Definition upd (f : nat → nat → Z) (r c : nat) (v : Z) : nat → nat → Z :=
  fun i j => if decide (i = r ∧ j = c) then v else f i j.

(** The sum the innermost loop of [matrix_multiply] has accumulated for the
    cell in row [r] and column [c] after [k] rounds. *)
Definition psum (A B : matrix) (r c k : nat) : Z :=
  Zsum ((fun k => get (to_list A) r k * get (to_list B) k c) <$> seq 0 k).

(** The table [matrix_multiply] holds while row [r] and column [c] are being
    filled, after [k] rounds of the innermost loop; [m] is the number of
    rounds for a cell. *)
Definition filling (A B : matrix) (m r c k : nat) : nat → nat → Z :=
  fun i j =>
    if decide (i < r ∨ (i = r ∧ j < c))%nat then psum A B i j m
    else if decide (i = r ∧ j = c) then psum A B r c k
    else 0.

(** The identity matrix. *)
Definition identity (n : nat) : list (list Z) :=
  tab n n (fun i j => if decide (i = j) then 1 else 0).

(** Powers of a square matrix. *)
Fixpoint mpow (n : nat) (M : list (list Z)) (k : nat) : list (list Z) :=
  match k with
  | O => identity n
  | S k' => mmul M (mpow n M k')
  end.

(** ** The recurrence of the matrix-power counter *)

(** The rows of [NEIGHBORS_MATRIX]. *)
Definition M10 : list (list Z) := to_list (MDict NEIGHBORS_MATRIX).

Abbreviation Mpow := (mpow 10 M10).

(** The recurrence that [count_sequences_log] computes: the one of the
    specification, with the entries of [NEIGHBORS_MATRIX] for the edges. *)
Fixpoint count_mat (h : nat) (p : nat) : Z :=
  match h with
  | O => 1
  | S h' => Zsum ((fun j => get M10 p j * count_mat h' j) <$> seq 0 10)
  end.

(** The column of ones that the last product is taken with. *)
Definition ones : list (list Z) := replicate 10 [1].

(** The bits of a positive number, least significant first. *)
Fixpoint lsb_bits (p : positive) : list ascii :=
  match p with
  | xH => ["1"%char]
  | xO p' => "0"%char :: lsb_bits p'
  | xI p' => "1"%char :: lsb_bits p'
  end.

(** The number a list of characters stands for when the loop reads it as
    bits, least significant first: only ["1"] counts. *)
Fixpoint bits_value (bits : list ascii) : nat :=
  match bits with
  | [] => 0
  | b :: bits' =>
    (if bool_decide (b = "1"%char) then 1 else 0) + 2 * bits_value bits'
  end.

(** ** The history of a memoized call

    [helper_traced] is [helper] with a ghost history: the keys the helper
    is called on and the stores it makes, in order.  [helper_traced_erase]
    shows that it computes the value and the cache of [helper]. *)

Inductive event : Type :=
| Called (key : Z * Z)
| Stored (key : Z * Z) (value : Z).

Fixpoint helper_traced (fuel : nat) (position num_hops : Z)
    (cache : gmap (Z * Z) Z) : result (Z * gmap (Z * Z) Z * list event) :=
  match fuel with
  | O => Raise RecursionError
  | S fuel' =>
    match cache !! (position, num_hops) with
    | Some v => Ok (v, cache, [Called (position, num_hops)])
    | None =>
      if bool_decide (num_hops = 0)
      then Ok (1, cache, [Called (position, num_hops)])
      else
        ns ← neighbors position;
        '(num_sequences, cache, history) ←
          for_in ns (fun neighbor '(num_sequences, cache, history) =>
            '(c, cache, history') ←
              helper_traced fuel' neighbor (num_hops - 1) cache;
            Ok (num_sequences + c, cache, history ++ history'))
            (0, cache, [Called (position, num_hops)]);
        Ok (num_sequences,
            <[(position, num_hops) := num_sequences]> cache,
            history ++ [Stored (position, num_hops) num_sequences])
    end
  end.

(** Forgetting the history. *)
Definition erase (r : result (Z * gmap (Z * Z) Z * list event))
  : result (Z * gmap (Z * Z) Z) :=
  '(v, cache, _) ← r; Ok (v, cache).

(** The keys stored in the course of a history. *)
Definition stored_keys (history : list event) : list (Z * Z) :=
  omap (fun e => match e with
                 | Stored key _ => Some key
                 | Called _ => None
                 end) history.

(** What a run that starts with [cache] and ends with [cache'] may have in
    its history, when it makes calls for at most [bound] hops. *)
Definition trace_ok (cache cache' : gmap (Z * Z) Z) (history : list event)
    (bound : Z) : Prop :=
  cache ⊆ cache'
  ∧ (∀ key w, Stored key w ∈ history →
       cache !! key = None ∧ cache' !! key = Some w ∧ 1 ≤ key.2 ≤ bound)
  ∧ NoDup (stored_keys history)
  ∧ (∀ key, Called key ∈ history → 1 ≤ key.2 → is_Some (cache' !! key)).

(** ** Entries of the adjacency matrix *)

(** [NEIGHBORS_MATRIX[i][j]] *)
Definition matrix_entry (i j : Z) : result Z :=
  r ← dict_index NEIGHBORS_MATRIX i; py_index r j.

(** ** Walks of the graph *)

(** Each node of [w] but the first is a neighbour, in the adjacency list,
    of the node before it. *)
Fixpoint is_walk (w : list Z) : Prop :=
  match w with
  | [] => True
  | x :: w' =>
    match w' with
    | [] => True
    | y :: _ => y ∈ nbrs x ∧ is_walk w'
    end
  end.

(** The keypad mirrored left to right and top to bottom. *)
Definition mirror_lr (p : Z) : Z :=
  if bool_decide (p = 1) then 3 else if bool_decide (p = 3) then 1
  else if bool_decide (p = 4) then 6 else if bool_decide (p = 6) then 4
  else if bool_decide (p = 7) then 9 else if bool_decide (p = 9) then 7
  else p.

Definition mirror_ud (p : Z) : Z :=
  if bool_decide (p = 1) then 7 else if bool_decide (p = 7) then 1
  else if bool_decide (p = 2) then 8 else if bool_decide (p = 8) then 2
  else if bool_decide (p = 3) then 9 else if bool_decide (p = 9) then 3
  else p.

(** The keys a call of the helper for [h] hops may store: a node with at
    least one and at most [h] hops. *)
Definition key_range (h : Z) : list (Z * Z) :=
  p ← seqZ 0 10; (fun k => (p, k)) <$> seqZ 1 h.

(** The calls recorded in a history. *)
Definition called_keys (history : list event) : list (Z * Z) :=
  omap (fun e => match e with
                 | Called key => Some key
                 | Stored _ _ => None
                 end) history.

(** * Proofs *)

(** ** The run of [main], and the same call for each counter *)

Example rec_6_2 : count_sequences_rec 10 6 2 = Ok 6.
Proof. vm_compute. reflexivity. Qed.
Example naive_6_2 : count_sequences 10 6 2 = Ok 6.
Proof. vm_compute. reflexivity. Qed.
Example mem_6_2 : count_sequences_mem 10 6 2 = Ok 6.
Proof. vm_compute. reflexivity. Qed.

Example dyn_6_2 : count_sequences_dyn 6 2 = Ok 6.
Proof. vm_compute. reflexivity. Qed.
Example log_6_2 : count_sequences_log 6 2 = Ok 6.
Proof. vm_compute. reflexivity. Qed.

(** ** The result monad and loops *)

Lemma bind_Ok {A B} (a : A) (f : A → result B) : (Ok a ≫= f) = f a.
Proof. reflexivity. Qed.

Lemma bind_Ok_inv {A B} (m : result A) (f : A → result B) (b : B) :
  (m ≫= f) = Ok b → ∃ a, m = Ok a ∧ f a = Ok b.
Proof. destruct m as [a|e]; [eauto | discriminate]. Qed.

Lemma for_in_app {A S} (xs ys : list A) (body : A → S → result S) (s : S) :
  for_in (xs ++ ys) body s = (for_in xs body s ≫= for_in ys body).
Proof.
  revert s. induction xs as [|x xs IH]; intros s; simpl; [done|].
  destruct (body x s) as [s'|e]; simpl; [apply IH | done].
Qed.

Lemma for_in_ext {A S} (xs : list A) (f g : A → S → result S) (s : S) :
  (∀ x s', x ∈ xs → f x s' = g x s') → for_in xs f s = for_in xs g s.
Proof.
  revert s. induction xs as [|x xs IH]; intros s Hfg; simpl; [done|].
  rewrite Hfg by left. destruct (g x s) as [s'|e]; simpl; [|done].
  apply IH. intros y s'' Hy. apply Hfg. by right.
Qed.

Lemma Zsum_nil : Zsum [] = 0.
Proof. reflexivity. Qed.

Lemma Zsum_cons (x : Z) (l : list Z) : Zsum (x :: l) = x + Zsum l.
Proof. reflexivity. Qed.

Lemma Zsum_app (l1 l2 : list Z) : Zsum (l1 ++ l2) = Zsum l1 + Zsum l2.
Proof.
  induction l1 as [|x l1 IH]; simpl; [done|].
  rewrite !Zsum_cons, IH. lia.
Qed.

(** A loop that adds up the values of calls which all return. *)
Lemma for_in_sum {A} (xs : list A) (f : A → result Z) (g : A → Z) (a : Z) :
  (∀ x, x ∈ xs → f x = Ok (g x)) →
  for_in xs (fun x acc => c ← f x; Ok (acc + c)) a = Ok (a + Zsum (g <$> xs)).
Proof.
  revert a. induction xs as [|x xs IH]; intros a Hf.
  - simpl. rewrite Zsum_nil. f_equal. lia.
  - cbn [for_in]. rewrite Hf by left. rewrite !bind_Ok.
    rewrite IH by (intros y Hy; apply Hf; by right).
    rewrite fmap_cons, Zsum_cons. f_equal. lia.
Qed.

(** A loop whose first call raises, raises. *)
Lemma for_in_raise_first {A S} (x : A) (xs : list A) (body : A → S → result S)
    (s : S) (e : exn) :
  body x s = Raise e → for_in (x :: xs) body s = Raise e.
Proof. intros H. simpl. by rewrite H. Qed.

Lemma for_in_count {A} (xs : list A) (n : Z) :
  for_in xs (fun _ num_sequences => Ok (num_sequences + 1)) n
  = Ok (n + Z.of_nat (length xs)).
Proof.
  revert n. induction xs as [|x xs IH]; intros n; simpl.
  - f_equal. lia.
  - rewrite IH. f_equal. lia.
Qed.

(** ** The adjacency list *)

Lemma valid_node_cases (p : Z) :
  valid_node p →
  p = 0 ∨ p = 1 ∨ p = 2 ∨ p = 3 ∨ p = 4 ∨ p = 5 ∨ p = 6 ∨ p = 7 ∨ p = 8 ∨ p = 9.
Proof. unfold valid_node. lia. Qed.

Ltac each_node H :=
  apply valid_node_cases in H;
  repeat (destruct H as [H|H]); subst.

Lemma neighbors_valid (p : Z) : valid_node p → neighbors p = Ok (nbrs p).
Proof. intros H. each_node H; reflexivity. Qed.

Lemma nbrs_valid (p : Z) : valid_node p → Forall valid_node (nbrs p).
Proof.
  intros H. each_node H; vm_compute nbrs;
    repeat constructor; unfold valid_node; lia.
Qed.

(** ** Plain recursion computes the recurrence *)

Lemma count_sequences_rec_spec (fuel : nat) (p h : Z) :
  valid_node p → 0 ≤ h → (Z.to_nat h < fuel)%nat →
  count_sequences_rec fuel p h = Ok (count_spec (Z.to_nat h) p).
Proof.
  revert p h. induction fuel as [|fuel IH]; intros p h Hp Hh Hfuel; [lia|].
  simpl. case_bool_decide as Hz.
  - subst h. reflexivity.
  - rewrite neighbors_valid by done. simpl.
    replace (Z.to_nat h) with (S (Z.to_nat (h - 1))) by lia. simpl.
    rewrite (for_in_sum _ _ (count_spec (Z.to_nat (h - 1)))).
    + reflexivity.
    + intros n Hn. apply IH; [|lia|lia].
      pose proof (nbrs_valid p Hp) as Hall.
      rewrite Forall_forall in Hall. by apply Hall.
Qed.

(** ** Enumeration yields as many sequences as the recurrence counts *)

Lemma yield_sequences_spec (fuel : nat) (p h : Z) (sequence : option (list Z)) :
  valid_node p → 0 ≤ h → (Z.to_nat h < fuel)%nat →
  ∃ seqs, yield_sequences fuel p h sequence = Ok seqs
          ∧ Z.of_nat (length seqs) = count_spec (Z.to_nat h) p.
Proof.
  revert p h sequence.
  induction fuel as [|fuel IH]; intros p h sequence Hp Hh Hfuel; [lia|].
  simpl. case_bool_decide as Hz.
  - subst h. eexists. split; [reflexivity|]. reflexivity.
  - rewrite neighbors_valid by done. simpl.
    replace (Z.to_nat h) with (S (Z.to_nat (h - 1))) by lia. simpl.
    pose proof (nbrs_valid p Hp) as Hall.
    set (sq := match sequence with None => [p] | Some s => s end).
    clearbody sq.
    assert (∀ acc : list (list Z), ∃ seqs,
      for_in (nbrs p) (fun neighbor yielded =>
        ys ← yield_sequences fuel neighbor (h - 1) (Some (sq ++ [neighbor]));
        Ok (yielded ++ ys)) acc = Ok seqs
      ∧ Z.of_nat (length seqs)
        = Z.of_nat (length acc)
          + Zsum (count_spec (Z.to_nat (h - 1)) <$> nbrs p)) as Hloop.
    { induction Hall as [|n ns Hn Hns IHns]; intros acc; cbn [for_in].
      - eexists. split; [reflexivity|]. rewrite fmap_nil, Zsum_nil. lia.
      - destruct (IH n (h - 1) (Some (sq ++ [n]))) as (ys & -> & Hlen);
          [done|lia|lia|].
        rewrite !bind_Ok. destruct (IHns (acc ++ ys)) as (seqs & -> & Hseqs).
        eexists. split; [reflexivity|].
        rewrite Hseqs, length_app, fmap_cons, Zsum_cons. lia. }
    destruct (Hloop []) as (seqs & -> & Hseqs).
    eexists. split; [reflexivity|]. rewrite Hseqs. simpl. lia.
Qed.

Lemma count_sequences_spec (fuel : nat) (p h : Z) :
  valid_node p → 0 ≤ h → (Z.to_nat h < fuel)%nat →
  count_sequences fuel p h = Ok (count_spec (Z.to_nat h) p).
Proof.
  intros Hp Hh Hfuel. unfold count_sequences.
  destruct (yield_sequences_spec fuel p h None Hp Hh Hfuel) as (seqs & -> & Hlen).
  simpl. rewrite for_in_count. f_equal. lia.
Qed.

(** ** Memoized recursion computes the recurrence *)

Lemma cache_ok_empty : cache_ok ∅.
Proof. intros p h v Hl. by rewrite lookup_empty in Hl. Qed.

Lemma cache_ok_insert (cache : gmap (Z * Z) Z) (p h : Z) :
  cache_ok cache →
  cache_ok (<[(p, h) := count_spec (Z.to_nat h) p]> cache).
Proof.
  intros Hc q k v Hl Hk. destruct (decide ((p, h) = (q, k))) as [[= -> ->]|Hne].
  - rewrite lookup_insert_eq in Hl. by inversion Hl.
  - rewrite lookup_insert_ne in Hl by done. by apply Hc.
Qed.

Lemma helper_spec (fuel : nat) (p h : Z) (cache : gmap (Z * Z) Z) :
  valid_node p → 0 ≤ h → (Z.to_nat h < fuel)%nat → cache_ok cache →
  ∃ cache', helper fuel p h cache = Ok (count_spec (Z.to_nat h) p, cache')
            ∧ cache_ok cache'.
Proof.
  revert p h cache.
  induction fuel as [|fuel IH]; intros p h cache Hp Hh Hfuel Hc; [lia|].
  cbn [helper]. destruct (cache !! (p, h)) as [v|] eqn:Hlook.
  - exists cache. split; [|done]. by rewrite (Hc p h v Hlook Hh).
  - case_bool_decide as Hz.
    + subst h. by exists cache.
    + rewrite neighbors_valid, bind_Ok by done.
      replace (Z.to_nat h) with (S (Z.to_nat (h - 1))) by lia.
      pose proof (nbrs_valid p Hp) as Hall.
      assert (∀ (acc : Z) (c : gmap (Z * Z) Z), cache_ok c →
        ∃ c', for_in (nbrs p) (fun neighbor '(num_sequences, cache) =>
                '(c, cache) ← helper fuel neighbor (h - 1) cache;
                Ok (num_sequences + c, cache)) (acc, c)
              = Ok (acc + Zsum (count_spec (Z.to_nat (h - 1)) <$> nbrs p), c')
              ∧ cache_ok c') as Hloop.
      { induction Hall as [|n ns Hn Hns IHns]; intros acc c Hcok; cbn [for_in].
        - exists c. split; [|done]. rewrite fmap_nil, Zsum_nil. do 2 f_equal. lia.
        - destruct (IH n (h - 1) c) as (c1 & -> & Hc1); [done|lia|lia|done|].
          rewrite !bind_Ok. cbn beta iota.
          destruct (IHns (acc + count_spec (Z.to_nat (h - 1)) n) c1 Hc1)
            as (c2 & -> & Hc2).
          exists c2. split; [|done]. rewrite fmap_cons, Zsum_cons.
          do 2 f_equal. lia. }
      destruct (Hloop 0 cache Hc) as (c' & -> & Hc').
      rewrite bind_Ok. cbn beta iota. rewrite Z.add_0_l.
      eexists. split; [reflexivity|].
      replace (S (Z.to_nat (h - 1))) with (Z.to_nat h) by lia.
      replace (Zsum (count_spec (Z.to_nat (h - 1)) <$> nbrs p))
        with (count_spec (Z.to_nat h) p).
      * by apply cache_ok_insert.
      * replace (Z.to_nat h) with (S (Z.to_nat (h - 1))) by lia. reflexivity.
Qed.

Lemma count_sequences_mem_spec (fuel : nat) (p h : Z) :
  valid_node p → 0 ≤ h → (Z.to_nat h < fuel)%nat →
  count_sequences_mem fuel p h = Ok (count_spec (Z.to_nat h) p).
Proof.
  intros Hp Hh Hfuel. unfold count_sequences_mem.
  destruct (helper_spec fuel p h ∅ Hp Hh Hfuel cache_ok_empty) as (c & -> & _).
  reflexivity.
Qed.

(** ** Bottom-up dynamic programming computes the recurrence *)

Lemma row_0 : row 0 = replicate 10 1.
Proof. reflexivity. Qed.

Lemma row_S (k : nat) :
  row (S k) =
  let c := count_spec k in
  [ c 4 + c 6; c 6 + c 8; c 7 + c 9; c 4 + c 8; c 3 + c 9 + c 0;
    0; c 1 + c 7 + c 0; c 2 + c 6; c 1 + c 3; c 2 + c 4 ].
Proof.
  unfold row. change (seqZ 0 10) with [0; 1; 2; 3; 4; 5; 6; 7; 8; 9].
  cbn [fmap list_fmap count_spec].
  change (nbrs 0) with [4; 6]. change (nbrs 1) with [6; 8].
  change (nbrs 2) with [7; 9]. change (nbrs 3) with [4; 8].
  change (nbrs 4) with [3; 9; 0]. change (nbrs 5) with (@nil Z).
  change (nbrs 6) with [1; 7; 0]. change (nbrs 7) with [2; 6].
  change (nbrs 8) with [1; 3]. change (nbrs 9) with [2; 4].
  cbn [fmap list_fmap]. rewrite !Zsum_cons, !Zsum_nil.
  cbv zeta. repeat (f_equal; try lia).
Qed.

Lemma row_index (k : nat) (p : Z) :
  valid_node p → py_index (row k) p = Ok (count_spec k p).
Proof. intros H. each_node H; reflexivity. Qed.

(** One iteration turns the vector for [k] hops into the one for [k + 1]. *)
Lemma dyn_body_row (k : nat) (cur : list Z) (j : Z) :
  dyn_body (DynState (row k) cur j) = Ok (DynState (row (S k)) (row (S k)) (j + 1)).
Proof.
  rewrite row_S. unfold row.
  change (seqZ 0 10) with [0; 1; 2; 3; 4; 5; 6; 7; 8; 9].
  cbn [fmap list_fmap].
  generalize (count_spec k 0) (count_spec k 1) (count_spec k 2) (count_spec k 3)
    (count_spec k 4) (count_spec k 5) (count_spec k 6) (count_spec k 7)
    (count_spec k 8) (count_spec k 9).
  intros c0 c1 c2 c3 c4 c5 c6 c7 c8 c9.
  vm_compute. reflexivity.
Qed.

Lemma dyn_body_hops (st st' : dyn_state) :
  dyn_body st = Ok st' → current_num_hops st' = current_num_hops st + 1.
Proof.
  unfold dyn_body. intros H.
  apply bind_Ok_inv in H as (c & _ & H). by inversion H.
Qed.

(** The loop runs until its guard fails. *)
Lemma dyn_while_exit (n : nat) (num_hops : Z) (st st' : dyn_state) :
  num_hops - current_num_hops st < Z.of_nat n →
  dyn_while n num_hops st = Ok st' →
  ¬ current_num_hops st' ≤ num_hops.
Proof.
  revert st. induction n as [|n IH]; intros st Hn; cbn [dyn_while];
    case_bool_decide as Hg; intros Hrun; try (inversion Hrun; subst; lia).
  apply bind_Ok_inv in Hrun as (st1 & Hbody & Hrun).
  apply dyn_body_hops in Hbody. apply (IH st1); [lia|done].
Qed.

(** The number of rounds [count_sequences_dyn] allows is enough: its loop
    ends because its guard fails. *)
Lemma count_sequences_dyn_loop_exit (num_hops : Z) (st : dyn_state) :
  dyn_while (Z.to_nat num_hops) num_hops
    {| prior_case := replicate 10 1;
       current_case := replicate 10 0;
       current_num_hops := 1 |} = Ok st →
  ¬ current_num_hops st ≤ num_hops.
Proof. apply dyn_while_exit. cbn [current_num_hops]. lia. Qed.

Lemma dyn_while_row (n k : nat) (num_hops : Z) (cur : list Z) :
  Z.of_nat k + Z.of_nat (S n) = num_hops →
  dyn_while (S n) num_hops (DynState (row k) cur (Z.of_nat k + 1))
  = Ok (DynState (row (k + S n)) (row (k + S n)) (num_hops + 1)).
Proof.
  revert k cur. induction n as [|n IH]; intros k cur Hk.
  - cbn [dyn_while]. cbn [current_num_hops].
    rewrite bool_decide_true by lia. rewrite dyn_body_row, bind_Ok.
    cbn [dyn_while current_num_hops]. rewrite bool_decide_false by lia.
    replace (k + 1)%nat with (S k) by lia. do 2 f_equal. lia.
  - remember (S n) as n1 eqn:Hn1. cbn [dyn_while]. cbn [current_num_hops].
    rewrite bool_decide_true by lia. rewrite dyn_body_row, bind_Ok.
    subst n1.
    replace (Z.of_nat k + 1 + 1) with (Z.of_nat (S k) + 1) by lia.
    rewrite IH by lia. do 2 f_equal; f_equal; lia.
Qed.

Lemma count_sequences_dyn_spec (p h : Z) :
  valid_node p → 1 ≤ h →
  count_sequences_dyn p h = Ok (count_spec (Z.to_nat h) p).
Proof.
  intros Hp Hh. unfold count_sequences_dyn.
  destruct (Z.to_nat h) as [|n] eqn:Hn; [lia|].
  rewrite <- row_0.
  rewrite (dyn_while_row n 0 h) by lia.
  rewrite bind_Ok. cbn [current_case]. by apply row_index.
Qed.

(** With no hop to make the loop is not entered and [current_case] is
    still the list of zeros. *)
Lemma count_sequences_dyn_no_hop (p h : Z) :
  valid_node p → h ≤ 0 → count_sequences_dyn p h = Ok 0.
Proof.
  intros Hp Hh. unfold count_sequences_dyn.
  replace (Z.to_nat h) with O by lia. cbn [dyn_while current_num_hops].
  rewrite bool_decide_false by lia. rewrite bind_Ok. cbn [current_case].
  each_node Hp; reflexivity.
Qed.

(** ** Tables and their cells *)

Lemma py_index_nat {A} (l : list A) (i : nat) (x : A) :
  l !! i = Some x → py_index l (Z.of_nat i) = Ok x.
Proof.
  intros Hl. pose proof (lookup_lt_Some _ _ _ Hl) as Hlt.
  unfold py_index. cbv zeta.
  rewrite (bool_decide_false (Z.of_nat i < 0)) by lia.
  rewrite bool_decide_true by lia.
  by rewrite Nat2Z.id, Hl.
Qed.

Lemma py_setitem_nat {A} (l : list A) (i : nat) (v : A) :
  (i < length l)%nat → py_setitem l (Z.of_nat i) v = Ok (<[i := v]> l).
Proof.
  intros Hlt. unfold py_setitem. cbv zeta.
  rewrite (bool_decide_false (Z.of_nat i < 0)) by lia.
  rewrite bool_decide_true by lia.
  by rewrite Nat2Z.id.
Qed.

Lemma seqZ_of_nat (n : nat) : seqZ 0 (Z.of_nat n) = Z.of_nat <$> seq 0 n.
Proof.
  unfold seqZ. rewrite Nat2Z.id. apply list_fmap_ext. intros i x _. lia.
Qed.

Lemma for_in_fmap {A B S} (g : A → B) (xs : list A) (body : B → S → result S)
    (s : S) :
  for_in (g <$> xs) body s = for_in xs (fun x => body (g x)) s.
Proof.
  revert s. induction xs as [|x xs IH]; intros s; [done|].
  rewrite fmap_cons. cbn [for_in]. destruct (body (g x) s); [apply IH | done].
Qed.

(** A [for k in range(n)] loop with invariant [I]. *)
Lemma for_in_seq_inv {S} (n : nat) (body : nat → S → result S)
    (I : nat → S → Prop) (s : S) :
  I O s →
  (∀ k s, (k < n)%nat → I k s → ∃ s', body k s = Ok s' ∧ I (Datatypes.S k) s') →
  ∃ s', for_in (seq 0 n) body s = Ok s' ∧ I n s'.
Proof.
  induction n as [|n IH]; intros H0 Hstep.
  - exists s. by split.
  - destruct IH as (s1 & Hrun & Hs1); [done | intros; apply Hstep; [lia|done] |].
    destruct (Hstep n s1) as (s2 & Hbody & Hs2); [lia|done|].
    exists s2. split; [|done].
    rewrite seq_S, for_in_app, Hrun, bind_Ok. cbn [for_in Nat.add].
    by rewrite Hbody.
Qed.

Lemma for_in_seq_eq {S} (n : nat) (body : nat → S → result S)
    (I : nat → S → Prop) (s t : S) :
  I O s →
  (∀ k s, (k < n)%nat → I k s → ∃ s', body k s = Ok s' ∧ I (Datatypes.S k) s') →
  (∀ s', I n s' → s' = t) →
  for_in (seq 0 n) body s = Ok t.
Proof.
  intros H0 Hstep Hend.
  destruct (for_in_seq_inv n body I s H0 Hstep) as (s' & -> & Hs').
  f_equal. by apply Hend.
Qed.

Lemma length_tab (n p : nat) (f : nat → nat → Z) : length (tab n p f) = n.
Proof. unfold tab. by rewrite length_fmap, length_seq. Qed.

Lemma lookup_tab (n p : nat) (f : nat → nat → Z) (i : nat) :
  (i < n)%nat → tab n p f !! i = Some (f i <$> seq 0 p).
Proof.
  intros Hi. unfold tab. rewrite list_lookup_fmap, lookup_seq_lt by done.
  reflexivity.
Qed.

Lemma dims_tab (n p : nat) (f : nat → nat → Z) : dims n p (tab n p f).
Proof.
  split; [apply length_tab|]. unfold tab. rewrite Forall_fmap.
  apply Forall_forall. intros i _. simpl. by rewrite length_fmap, length_seq.
Qed.

Lemma get_tab (n p : nat) (f : nat → nat → Z) (i j : nat) :
  (i < n)%nat → (j < p)%nat → get (tab n p f) i j = f i j.
Proof.
  intros Hi Hj. unfold get. rewrite lookup_tab by done. simpl.
  rewrite list_lookup_fmap, lookup_seq_lt by done. reflexivity.
Qed.

Lemma tab_ext (n p : nat) (f g : nat → nat → Z) :
  (∀ i j, (i < n)%nat → (j < p)%nat → f i j = g i j) → tab n p f = tab n p g.
Proof.
  intros Hfg. unfold tab. apply list_fmap_ext. intros k i Hk.
  apply lookup_seq in Hk as [-> Hi]. apply list_fmap_ext. intros k' j Hk'.
  apply lookup_seq in Hk' as [-> Hj]. by apply Hfg.
Qed.

(** A table is the table of its entries. *)
Lemma tab_get (n p : nat) (A : list (list Z)) : dims n p A → tab n p (get A) = A.
Proof.
  intros [Hlen Hrows]. apply list_eq. intros i.
  destruct (decide (i < n)%nat) as [Hi|Hi].
  - rewrite lookup_tab by done.
    destruct (A !! i) as [r|] eqn:Hr;
      [|apply lookup_ge_None in Hr; lia].
    f_equal. rewrite Forall_forall in Hrows.
    assert (length r = p) as Hp
      by (apply Hrows; apply list_elem_of_lookup; eauto).
    apply list_eq. intros j. rewrite list_lookup_fmap.
    destruct (decide (j < p)%nat) as [Hj|Hj].
    + rewrite lookup_seq_lt by done. simpl. unfold get. rewrite Hr. simpl.
      destruct (r !! j) eqn:Hrj; [done|]. apply lookup_ge_None in Hrj. lia.
    + rewrite lookup_seq_ge by lia. simpl. symmetry.
      apply lookup_ge_None. lia.
  - rewrite (proj2 (lookup_ge_None _ _)) by (rewrite length_tab; lia).
    symmetry. apply lookup_ge_None. lia.
Qed.

Lemma insert_tab (n p : nat) (f : nat → nat → Z) (r c : nat) (v : Z) :
  (r < n)%nat → (c < p)%nat →
  <[r := <[c := v]> (f r <$> seq 0 p)]> (tab n p f) = tab n p (upd f r c v).
Proof.
  intros Hr Hc. apply list_eq. intros i.
  destruct (decide (i < n)%nat) as [Hi|Hi].
  - rewrite (lookup_tab _ _ (upd f r c v)) by done.
    destruct (decide (i = r)) as [->|Hne].
    + rewrite list_lookup_insert_eq by (rewrite length_tab; lia).
      f_equal. apply list_eq. intros j. rewrite list_lookup_fmap.
      destruct (decide (j = c)) as [->|Hjc].
      * rewrite list_lookup_insert_eq
          by (rewrite length_fmap, length_seq; lia).
        rewrite lookup_seq_lt by done. simpl. unfold upd.
        by rewrite decide_True.
      * rewrite list_lookup_insert_ne by done. rewrite list_lookup_fmap.
        destruct (seq 0 p !! j) as [j'|] eqn:Hj'; [|done].
        apply lookup_seq in Hj' as [-> _]. simpl. unfold upd.
        rewrite decide_False; [done|]. intros [_ ?]. done.
    + rewrite list_lookup_insert_ne by done. rewrite lookup_tab by done.
      f_equal. apply list_fmap_ext. intros k j Hk. unfold upd.
      rewrite decide_False; [done|]. intros [? _]. done.
  - rewrite !(proj2 (lookup_ge_None _ _));
      rewrite ?length_insert, ?length_tab; (done || lia).
Qed.

(** ** [matrix_multiply] computes the matrix product *)

Lemma is_mat_row (n m : nat) (M : matrix) (i : nat) :
  is_mat n m M → (i < n)%nat →
  ∃ r, to_list M !! i = Some r ∧ length r = m ∧ mat_row M (Z.of_nat i) = Ok r.
Proof.
  intros (_ & [Hlen Hrows] & Hread) Hi.
  destruct (to_list M !! i) as [r|] eqn:Hr;
    [|apply lookup_ge_None in Hr; lia].
  exists r. split; [done|]. split; [|by apply Hread].
  rewrite Forall_forall in Hrows. apply Hrows.
  apply list_elem_of_lookup. eauto.
Qed.

Lemma row_entry (A : list (list Z)) (i k : nat) (r : list Z) :
  A !! i = Some r → (k < length r)%nat → r !! k = Some (get A i k).
Proof.
  intros Hr Hk. unfold get. rewrite Hr. simpl.
  destruct (r !! k) eqn:Hrk; [done|]. apply lookup_ge_None in Hrk. lia.
Qed.

Lemma is_mat_MList (n m : nat) (l : list (list Z)) :
  dims n m l → is_mat n m (MList l).
Proof.
  intros [Hlen Hrows]. split; [simpl; lia|]. split; [done|].
  intros i r Hr. simpl in *. by apply py_index_nat.
Qed.

Lemma init_tab (n p : nat) :
  (fun _ : Z => replicate p 0) <$> seqZ 0 (Z.of_nat n) = tab n p (fun _ _ => 0).
Proof.
  rewrite seqZ_of_nat, <- list_fmap_compose. unfold tab.
  apply list_fmap_ext. intros _ i _. simpl.
  clear. induction p as [|p IH]; [done|].
  rewrite seq_S, fmap_app, <- IH. simpl.
  clear. induction p as [|p IH]; [done|]. simpl. by rewrite <- IH.
Qed.

Section matrix_multiply.
Variables (n m p : nat) (A B : matrix).
Hypothesis HA : is_mat n m A.
Hypothesis HB : is_mat m p B.

Lemma psum_S (r c k : nat) :
  psum A B r c (S k)
  = psum A B r c k + get (to_list A) r k * get (to_list B) k c.
Proof.
  unfold psum. rewrite seq_S, fmap_app, Zsum_app. simpl.
  rewrite Zsum_cons, Zsum_nil. lia.
Qed.

(** The statement [result[row][col] += A[row][i] * B[i][col]]. *)
Lemma cell_step (f : nat → nat → Z) (r c k : nat) :
  (r < n)%nat → (c < p)%nat → (k < m)%nat →
  (r_row ← py_index (tab n p f) (Z.of_nat r);
   rv ← py_index r_row (Z.of_nat c);
   a_row ← mat_row A (Z.of_nat r);
   a ← py_index a_row (Z.of_nat k);
   b_row ← mat_row B (Z.of_nat k);
   b ← py_index b_row (Z.of_nat c);
   r_row' ← py_setitem r_row (Z.of_nat c) (rv + a * b);
   py_setitem (tab n p f) (Z.of_nat r) r_row')
  = Ok (tab n p
          (upd f r c (f r c + get (to_list A) r k * get (to_list B) k c))).
Proof.
  intros Hr Hc Hk.
  rewrite (py_index_nat _ r _ (lookup_tab n p f r Hr)), bind_Ok.
  rewrite (py_index_nat (f r <$> seq 0 p) c (f r c)), bind_Ok
    by (by rewrite list_lookup_fmap, lookup_seq_lt).
  destruct (is_mat_row n m A r HA Hr) as (ar & Har & Hlar & ->).
  rewrite bind_Ok.
  assert (ar !! k = Some (get (to_list A) r k)) as Ha
    by (apply row_entry; [done|lia]).
  rewrite (py_index_nat ar k _ Ha), bind_Ok.
  destruct (is_mat_row m p B k HB Hk) as (bk & Hbk & Hlbk & ->).
  rewrite bind_Ok.
  assert (bk !! c = Some (get (to_list B) k c)) as Hb
    by (apply row_entry; [done|lia]).
  rewrite (py_index_nat bk c _ Hb), bind_Ok.
  rewrite py_setitem_nat, bind_Ok by (rewrite length_fmap, length_seq; lia).
  rewrite py_setitem_nat by (rewrite length_tab; lia).
  by rewrite insert_tab.
Qed.

Lemma psum_0 (r c : nat) : psum A B r c 0 = 0.
Proof. reflexivity. Qed.

Ltac filling_cases :=
  intros i j Hi Hj; unfold upd, filling; rewrite ?psum_S, ?psum_0;
  repeat case_decide; destruct_and?; subst; try done; try lia.

Lemma inner_loop (r c : nat) :
  (r < n)%nat → (c < p)%nat →
  for_in (seq 0 m) (fun i result =>
    r_row ← py_index result (Z.of_nat r);
    rv ← py_index r_row (Z.of_nat c);
    a_row ← mat_row A (Z.of_nat r);
    a ← py_index a_row (Z.of_nat i);
    b_row ← mat_row B (Z.of_nat i);
    b ← py_index b_row (Z.of_nat c);
    r_row' ← py_setitem r_row (Z.of_nat c) (rv + a * b);
    py_setitem result (Z.of_nat r) r_row') (tab n p (filling A B m r c 0))
  = Ok (tab n p (filling A B m r (S c) 0)).
Proof.
  intros Hr Hc.
  apply (for_in_seq_eq m _ (fun k s => s = tab n p (filling A B m r c k))).
  - done.
  - intros k s Hk ->. rewrite cell_step by done.
    eexists. split; [reflexivity|]. apply tab_ext. filling_cases.
  - intros s' ->. apply tab_ext. filling_cases.
Qed.

Lemma middle_loop (r : nat) :
  (r < n)%nat →
  for_in (seq 0 p) (fun col result =>
    for_in (seq 0 m) (fun i result =>
      r_row ← py_index result (Z.of_nat r);
      rv ← py_index r_row (Z.of_nat col);
      a_row ← mat_row A (Z.of_nat r);
      a ← py_index a_row (Z.of_nat i);
      b_row ← mat_row B (Z.of_nat i);
      b ← py_index b_row (Z.of_nat col);
      r_row' ← py_setitem r_row (Z.of_nat col) (rv + a * b);
      py_setitem result (Z.of_nat r) r_row') result)
    (tab n p (filling A B m r 0 0))
  = Ok (tab n p (filling A B m (S r) 0 0)).
Proof.
  intros Hr.
  apply (for_in_seq_eq p _ (fun c s => s = tab n p (filling A B m r c 0))).
  - done.
  - intros c s Hc ->. rewrite inner_loop by done. eauto.
  - intros s' ->. apply tab_ext. filling_cases.
Qed.

Lemma outer_loop :
  for_in (seq 0 n) (fun row result =>
    for_in (seq 0 p) (fun col result =>
      for_in (seq 0 m) (fun i result =>
        r_row ← py_index result (Z.of_nat row);
        rv ← py_index r_row (Z.of_nat col);
        a_row ← mat_row A (Z.of_nat row);
        a ← py_index a_row (Z.of_nat i);
        b_row ← mat_row B (Z.of_nat i);
        b ← py_index b_row (Z.of_nat col);
        r_row' ← py_setitem r_row (Z.of_nat col) (rv + a * b);
        py_setitem result (Z.of_nat row) r_row') result) result)
    (tab n p (fun _ _ => 0))
  = Ok (tab n p (fun i j => psum A B i j m)).
Proof.
  apply (for_in_seq_eq n _ (fun r s => s = tab n p (filling A B m r 0 0))).
  - apply tab_ext. filling_cases.
  - intros r s Hr ->. rewrite middle_loop by done. eauto.
  - intros s' ->. apply tab_ext. filling_cases.
Qed.

Lemma matrix_multiply_spec :
  (0 < n)%nat → (0 < m)%nat →
  matrix_multiply A B = Ok (mmul (to_list A) (to_list B)).
Proof.
  intros Hn Hm. unfold matrix_multiply.
  destruct (is_mat_row n m A 0 HA Hn) as (a0 & _ & _ & Ha0).
  change (Z.of_nat 0) with 0 in Ha0. rewrite Ha0, bind_Ok.
  destruct (is_mat_row m p B 0 HB Hm) as (b0 & Hb0 & Hlb0 & Hb0').
  change (Z.of_nat 0) with 0 in Hb0'. rewrite Hb0', bind_Ok.
  destruct HA as (HlenA & [HdA _] & _). destruct HB as (HlenB & [HdB _] & _).
  cbv zeta. rewrite HlenA, HlenB, Hlb0, Nat2Z.id, init_tab.
  rewrite !seqZ_of_nat, for_in_fmap.
  erewrite for_in_ext; [rewrite outer_loop|].
  - unfold mmul. rewrite HdA, HdB, Hb0. cbn [default from_option id].
    by rewrite Hlb0.
  - intros row s _. cbv beta. rewrite for_in_fmap.
    apply for_in_ext. intros col s' _. cbv beta. by rewrite for_in_fmap.
Qed.
End matrix_multiply.

(** ** Algebra of the matrix product *)

Lemma Zsum_fmap_ext {A} (f g : A → Z) (l : list A) :
  (∀ x, x ∈ l → f x = g x) → Zsum (f <$> l) = Zsum (g <$> l).
Proof.
  induction l as [|x l IH]; intros Hfg; [done|].
  rewrite !fmap_cons, !Zsum_cons, Hfg by left.
  rewrite IH; [done|]. intros y Hy. apply Hfg. by right.
Qed.

Lemma Zsum_fmap_add {A} (f g : A → Z) (l : list A) :
  Zsum ((fun x => f x + g x) <$> l) = Zsum (f <$> l) + Zsum (g <$> l).
Proof.
  induction l as [|x l IH]; [done|].
  rewrite !fmap_cons, !Zsum_cons, IH. lia.
Qed.

Lemma Zsum_fmap_zero {A} (l : list A) : Zsum ((fun _ => 0) <$> l) = 0.
Proof.
  induction l as [|x l IH]; [done|]. by rewrite fmap_cons, Zsum_cons, IH.
Qed.

Lemma Zsum_mul_r {A} (f : A → Z) (l : list A) (c : Z) :
  Zsum (f <$> l) * c = Zsum ((fun x => f x * c) <$> l).
Proof.
  induction l as [|x l IH]; [done|].
  rewrite !fmap_cons, !Zsum_cons, <- IH. lia.
Qed.

Lemma Zsum_mul_l {A} (f : A → Z) (l : list A) (c : Z) :
  c * Zsum (f <$> l) = Zsum ((fun x => c * f x) <$> l).
Proof.
  induction l as [|x l IH]; [rewrite !fmap_nil, !Zsum_nil; lia|].
  rewrite !fmap_cons, !Zsum_cons, <- IH. lia.
Qed.

Lemma Zsum_swap {A B} (F : A → B → Z) (xs : list A) (ys : list B) :
  Zsum ((fun x => Zsum ((fun y => F x y) <$> ys)) <$> xs)
  = Zsum ((fun y => Zsum ((fun x => F x y) <$> xs)) <$> ys).
Proof.
  induction xs as [|x xs IH].
  - rewrite fmap_nil, Zsum_nil. symmetry. apply Zsum_fmap_zero.
  - rewrite fmap_cons, Zsum_cons, IH, <- Zsum_fmap_add.
    apply Zsum_fmap_ext. intros y _. by rewrite fmap_cons, Zsum_cons.
Qed.

(** A sum against one row of the identity matrix picks one term. *)
Lemma Zsum_delta_l (f : nat → Z) (i n : nat) :
  (i < n)%nat →
  Zsum ((fun k => (if decide (i = k) then 1 else 0) * f k) <$> seq 0 n) = f i.
Proof.
  induction n as [|n IH]; intros Hi; [lia|].
  rewrite seq_S, fmap_app, Zsum_app. simpl. rewrite Zsum_cons, Zsum_nil.
  destruct (decide (i = n)) as [->|Hne].
  - rewrite (Zsum_fmap_ext _ (fun _ => 0)), Zsum_fmap_zero; [lia|].
    intros k Hk. apply list_elem_of_lookup in Hk as [j Hj].
    apply lookup_seq in Hj as [-> Hj]. rewrite decide_False by lia. lia.
  - rewrite IH by lia. lia.
Qed.

Lemma Zsum_delta_r (f : nat → Z) (j n : nat) :
  (j < n)%nat →
  Zsum ((fun k => f k * (if decide (k = j) then 1 else 0)) <$> seq 0 n) = f j.
Proof.
  intros Hj. rewrite <- (Zsum_delta_l f j n Hj).
  apply Zsum_fmap_ext. intros k _.
  destruct (decide (k = j)), (decide (j = k)); try lia; congruence.
Qed.

Lemma cols_dims (m p : nat) (B : list (list Z)) :
  dims m p B → (0 < m)%nat → length (default [] (B !! 0%nat)) = p.
Proof.
  intros [Hlen Hrows] Hm.
  destruct (B !! 0%nat) as [r|] eqn:Hr; [|apply lookup_ge_None in Hr; lia].
  simpl. rewrite Forall_forall in Hrows. apply Hrows.
  apply list_elem_of_lookup. eauto.
Qed.

Lemma mmul_tab (n m p : nat) (A B : list (list Z)) :
  dims n m A → dims m p B → (0 < m)%nat →
  mmul A B
  = tab n p (fun i j => Zsum ((fun k => get A i k * get B k j) <$> seq 0 m)).
Proof.
  intros HA HB Hm. unfold mmul.
  rewrite (cols_dims m p B HB Hm). destruct HA as [-> _], HB as [-> _]. done.
Qed.

Lemma dims_mmul (n m p : nat) (A B : list (list Z)) :
  dims n m A → dims m p B → (0 < m)%nat → dims n p (mmul A B).
Proof.
  intros HA HB Hm. rewrite (mmul_tab n m p) by done. apply dims_tab.
Qed.

Lemma get_mmul (n m p : nat) (A B : list (list Z)) (i j : nat) :
  dims n m A → dims m p B → (0 < m)%nat → (i < n)%nat → (j < p)%nat →
  get (mmul A B) i j = Zsum ((fun k => get A i k * get B k j) <$> seq 0 m).
Proof.
  intros HA HB Hm Hi Hj. rewrite (mmul_tab n m p) by done.
  by rewrite get_tab.
Qed.

Lemma elem_of_seq_lt (k n : nat) : k ∈ seq 0 n → (k < n)%nat.
Proof. intros Hk. apply elem_of_seq in Hk. lia. Qed.

Lemma mmul_assoc (n m p q : nat) (A B C : list (list Z)) :
  dims n m A → dims m p B → dims p q C → (0 < m)%nat → (0 < p)%nat →
  mmul (mmul A B) C = mmul A (mmul B C).
Proof.
  intros HA HB HC Hm Hp.
  rewrite (mmul_tab n p q (mmul A B) C) by eauto using dims_mmul.
  rewrite (mmul_tab n m q A (mmul B C)) by eauto using dims_mmul.
  apply tab_ext. intros i j Hi Hj.
  rewrite (Zsum_fmap_ext _
    (fun k => Zsum ((fun l => get A i l * get B l k * get C k j) <$> seq 0 m))).
  2:{ intros k Hk%elem_of_seq_lt.
      rewrite (get_mmul n m p) by done. apply Zsum_mul_r. }
  rewrite Zsum_swap. apply Zsum_fmap_ext. intros l Hl%elem_of_seq_lt.
  rewrite (get_mmul m p q) by done. rewrite Zsum_mul_l.
  apply Zsum_fmap_ext. intros k _. lia.
Qed.

Lemma dims_identity (n : nat) : dims n n (identity n).
Proof. apply dims_tab. Qed.

Lemma mmul_identity_l (n p : nat) (A : list (list Z)) :
  dims n p A → (0 < n)%nat → mmul (identity n) A = A.
Proof.
  intros HA Hn. rewrite (mmul_tab n n p) by auto using dims_identity.
  transitivity (tab n p (get A)); [|by apply tab_get].
  apply tab_ext. intros i j Hi Hj.
  rewrite <- (Zsum_delta_l (fun k => get A k j) i n Hi).
  apply Zsum_fmap_ext. intros k Hk%elem_of_seq_lt.
  unfold identity. by rewrite get_tab.
Qed.

Lemma mmul_identity_r (n p : nat) (A : list (list Z)) :
  dims n p A → (0 < p)%nat → mmul A (identity p) = A.
Proof.
  intros HA Hp. rewrite (mmul_tab n p p) by auto using dims_identity.
  transitivity (tab n p (get A)); [|by apply tab_get].
  apply tab_ext. intros i j Hi Hj.
  rewrite <- (Zsum_delta_r (fun k => get A i k) j p Hj).
  apply Zsum_fmap_ext. intros k Hk%elem_of_seq_lt.
  unfold identity. by rewrite get_tab.
Qed.

Lemma dims_mpow (n : nat) (M : list (list Z)) (k : nat) :
  dims n n M → (0 < n)%nat → dims n n (mpow n M k).
Proof.
  intros HM Hn. induction k as [|k IH]; [apply dims_identity|].
  simpl. by apply (dims_mmul n n n).
Qed.

Lemma mpow_add (n : nat) (M : list (list Z)) (a b : nat) :
  dims n n M → (0 < n)%nat →
  mpow n M (a + b) = mmul (mpow n M a) (mpow n M b).
Proof.
  intros HM Hn. induction a as [|a IH].
  - simpl. by rewrite (mmul_identity_l n n) by auto using dims_mpow.
  - simpl. rewrite IH. symmetry.
    apply (mmul_assoc n n n n); auto using dims_mpow.
Qed.

Lemma mpow_1 (n : nat) (M : list (list Z)) :
  dims n n M → (0 < n)%nat → mpow n M 1 = M.
Proof. intros HM Hn. simpl. by apply (mmul_identity_r n n). Qed.

(** ** The matrix-power counter computes the matrix recurrence *)

Lemma M10_rows :
  M10 = [ [0; 0; 0; 0; 1; 0; 1; 0; 0; 0];
          [0; 0; 0; 0; 0; 0; 1; 0; 1; 0];
          [0; 0; 0; 0; 0; 0; 0; 1; 0; 1];
          [0; 0; 0; 1; 0; 0; 0; 0; 1; 0];
          [1; 0; 0; 1; 0; 0; 0; 0; 0; 1];
          [0; 0; 0; 0; 0; 0; 0; 0; 0; 0];
          [1; 1; 0; 0; 0; 0; 0; 1; 0; 0];
          [0; 0; 1; 0; 0; 0; 1; 0; 0; 0];
          [0; 1; 0; 1; 0; 0; 0; 0; 0; 0];
          [0; 0; 1; 0; 1; 0; 0; 0; 0; 0] ].
Proof. vm_compute. reflexivity. Qed.

Lemma dims_M10 : dims 10 10 M10.
Proof. rewrite M10_rows. split; [done|]. repeat constructor. Qed.

Lemma is_mat_NEIGHBORS_MATRIX : is_mat 10 10 (MDict NEIGHBORS_MATRIX).
Proof.
  split; [reflexivity|]. split; [apply dims_M10|].
  intros i r Hr. fold M10 in Hr. rewrite M10_rows in Hr.
  do 10 (destruct i as [|i]; [inversion Hr; subst; reflexivity|]).
  inversion Hr.
Qed.

Lemma identity_10 :
  (fun j : Z => (fun i : Z => if bool_decide (i = j) then 1 else 0)
                  <$> seqZ 0 10) <$> seqZ 0 10
  = identity 10.
Proof. vm_compute. reflexivity. Qed.

Lemma list_ascii_of_string_app (s1 s2 : string) :
  list_ascii_of_string (s1 +:+ s2)
  = list_ascii_of_string s1 ++ list_ascii_of_string s2.
Proof. induction s1 as [|a s1 IH]; simpl; [done|]. by rewrite IH. Qed.

Lemma reversed_app (s1 s2 : string) :
  reversed (s1 +:+ s2) = reversed s2 ++ reversed s1.
Proof. unfold reversed. by rewrite list_ascii_of_string_app, reverse_app. Qed.

Lemma reversed_bin_digits (p : positive) : reversed (bin_digits p) = lsb_bits p.
Proof.
  induction p as [p IH|p IH|]; simpl; [| |done];
    by rewrite reversed_app, IH.
Qed.

Lemma bits_of_bin (h : Z) :
  reversed (str_from 2 (bin h)) =
  match h with
  | Z0 => ["0"%char]
  | Zpos p => lsb_bits p
  | Zneg p => lsb_bits p ++ ["b"%char]
  end.
Proof.
  destruct h as [|p|p]; [done| |].
  - apply reversed_bin_digits.
  - change (str_from 2 (bin (Z.neg p))) with ("b" +:+ bin_digits p)%string.
    by rewrite reversed_app, reversed_bin_digits.
Qed.

Lemma bits_value_lsb (p : positive) : bits_value (lsb_bits p) = Pos.to_nat p.
Proof.
  induction p as [p IH|p IH|]; simpl; [| |done]; rewrite IH; lia.
Qed.

Lemma bits_value_b (bits : list ascii) :
  bits_value (bits ++ ["b"%char]) = bits_value bits.
Proof.
  induction bits as [|b bits IH]; simpl; [done|]. by rewrite IH.
Qed.

Lemma bits_value_bin (h : Z) :
  bits_value (reversed (str_from 2 (bin h))) = Z.to_nat (Z.abs h).
Proof.
  rewrite bits_of_bin. destruct h as [|p|p]; [done| |].
  - rewrite bits_value_lsb. simpl. lia.
  - rewrite bits_value_b, bits_value_lsb. simpl. lia.
Qed.

Lemma dims_Mpow (k : nat) : dims 10 10 (Mpow k).
Proof. apply dims_mpow; [apply dims_M10 | lia]. Qed.

Lemma is_mat_Mpow (k : nat) : is_mat 10 10 (MList (Mpow k)).
Proof. apply is_mat_MList, dims_Mpow. Qed.

Lemma Mpow_add (a b : nat) : Mpow (a + b) = mmul (Mpow a) (Mpow b).
Proof. apply mpow_add; [apply dims_M10 | lia]. Qed.

(** The first round of the loop binds [power_of_2] to the matrix itself. *)
Lemma log_body_first (bit : ascii) (P : option matrix) :
  log_body (0, bit) (LogState (identity 10) P)
  = Ok (LogState (Mpow (if bool_decide (bit = "1"%char) then 1 else 0))
          (Some (MDict NEIGHBORS_MATRIX))).
Proof.
  unfold log_body. cbv beta iota.
  rewrite (bool_decide_true (0 = 0)) by done. rewrite bind_Ok.
  cbn [accum]. case_bool_decide; [|done].
  rewrite (matrix_multiply_spec 10 10 10 (MList (identity 10))
             (MDict NEIGHBORS_MATRIX)
             (is_mat_MList 10 10 _ (dims_identity 10))
             is_mat_NEIGHBORS_MATRIX) by lia.
  rewrite bind_Ok. cbn [to_list]. fold M10.
  rewrite (mmul_identity_l 10 10) by (apply dims_M10 || lia).
  rewrite (mpow_1 10 M10) by (apply dims_M10 || lia).
  reflexivity.
Qed.

(** A later round squares [power_of_2] and multiplies it in on a ["1"]. *)
Lemma log_body_later (j : nat) (bit : ascii) (v : nat) (P : matrix) :
  is_mat 10 10 P → to_list P = Mpow (2 ^ j) →
  log_body (Z.of_nat (S j), bit) (LogState (Mpow v) (Some P))
  = Ok (LogState
          (Mpow (v + (if bool_decide (bit = "1"%char) then 1 else 0) * 2 ^ S j))
          (Some (MList (Mpow (2 ^ S j))))).
Proof.
  intros HP HPl. unfold log_body. cbv beta iota.
  rewrite (bool_decide_false (Z.of_nat (S j) = 0)) by lia.
  cbn [power_of_2 accum].
  rewrite (matrix_multiply_spec 10 10 10 P P HP HP) by lia.
  rewrite !bind_Ok, HPl, <- Mpow_add.
  replace (2 ^ j + 2 ^ j)%nat with (2 ^ S j)%nat by (simpl; lia).
  case_bool_decide.
  - rewrite (matrix_multiply_spec 10 10 10 _ _ (is_mat_Mpow _) (is_mat_Mpow _))
      by lia.
    rewrite bind_Ok. cbn [to_list]. rewrite <- Mpow_add.
    do 3 f_equal. lia.
  - rewrite bind_Ok. do 3 f_equal. lia.
Qed.

Lemma log_loop_later (bits : list ascii) (j v : nat) (P : matrix) :
  is_mat 10 10 P → to_list P = Mpow (2 ^ j) →
  ∃ P', for_in (imap (fun k x => (Z.of_nat (S j + k), x)) bits) log_body
          (LogState (Mpow v) (Some P))
        = Ok (LogState (Mpow (v + 2 ^ S j * bits_value bits)) (Some P')).
Proof.
  revert j v P. induction bits as [|b bits IH]; intros j v P HP HPl.
  - exists P. cbn [imap for_in bits_value]. do 3 f_equal. lia.
  - rewrite imap_cons. cbn [for_in]. rewrite Nat.add_0_r.
    rewrite log_body_later, bind_Ok by done.
    destruct (IH (S j)
                (v + (if bool_decide (b = "1"%char) then 1 else 0) * 2 ^ S j)%nat
                (MList (Mpow (2 ^ S j)))) as (P' & Hrun);
      [apply is_mat_Mpow | done |].
    exists P'.
    rewrite (imap_ext _ (fun k x => (Z.of_nat (S (S j) + k), x)))
      by (intros k x _; unfold compose; f_equal; lia).
    rewrite Hrun. do 3 f_equal. cbn [bits_value].
    replace (2 ^ S (S j))%nat with (2 * 2 ^ S j)%nat by (simpl; lia).
    case_bool_decide; lia.
Qed.

(** The loop leaves the power of the matrix for the exponent its bits
    stand for in [accum]. *)
Lemma log_loop (bits : list ascii) :
  bits ≠ [] →
  ∃ P', for_in (enumerate bits) log_body (LogState (identity 10) None)
        = Ok (LogState (Mpow (bits_value bits)) (Some P')).
Proof.
  destruct bits as [|b bits]; [done|]. intros _.
  unfold enumerate. rewrite imap_cons. cbn [for_in].
  change (Z.of_nat 0) with 0. rewrite log_body_first, bind_Ok.
  destruct (log_loop_later bits 0 (if bool_decide (b = "1"%char) then 1 else 0)
              (MDict NEIGHBORS_MATRIX)) as (P' & Hrun).
  { apply is_mat_NEIGHBORS_MATRIX. }
  { cbn [to_list]. fold M10. symmetry. apply mpow_1; [apply dims_M10|lia]. }
  exists P'.
  rewrite (imap_ext _ (fun k x => (Z.of_nat (1 + k), x)))
    by (intros k x _; reflexivity).
  rewrite Hrun. reflexivity.
Qed.

Lemma bits_nonempty (h : Z) : reversed (str_from 2 (bin h)) ≠ [].
Proof.
  rewrite bits_of_bin. destruct h as [|p|p]; [done| |];
    destruct p; simpl; done.
Qed.

Lemma dims_ones : dims 10 1 ones.
Proof. split; [done|]. repeat constructor. Qed.

Lemma get_Mpow_ones (v p : nat) :
  (p < 10)%nat → get (mmul (Mpow v) ones) p 0 = count_mat v p.
Proof.
  revert p. induction v as [|v IH]; intros p Hp.
  - cbn [mpow]. rewrite (mmul_identity_l 10 1) by (apply dims_ones || lia).
    do 10 (destruct p as [|p]; [reflexivity|]). lia.
  - cbn [mpow count_mat].
    rewrite (mmul_assoc 10 10 10 1)
      by (apply dims_M10 || apply dims_Mpow || apply dims_ones || lia).
    rewrite (get_mmul 10 10 1);
      [|apply dims_M10
       |apply (dims_mmul 10 10 1); (apply dims_Mpow || apply dims_ones || lia)
       |lia..].
    apply Zsum_fmap_ext. intros k Hk%elem_of_seq_lt. by rewrite IH.
Qed.

(** [count_sequences_log] returns the value of the matrix recurrence, for
    the absolute value of the hop count. *)
Lemma count_sequences_log_spec (p h : Z) :
  valid_node p →
  count_sequences_log p h
  = Ok (count_mat (Z.to_nat (Z.abs h)) (Z.to_nat p)).
Proof.
  intros Hp. unfold count_sequences_log. rewrite identity_10.
  destruct (log_loop _ (bits_nonempty h)) as (P' & ->).
  rewrite bind_Ok. cbn [accum]. rewrite bits_value_bin.
  rewrite (matrix_multiply_spec 10 10 1 _ _ (is_mat_Mpow _)
             (is_mat_MList 10 1 _ dims_ones)) by lia.
  rewrite bind_Ok. cbn [to_list]. fold ones.
  assert (Z.to_nat p < 10)%nat as Hp' by (unfold valid_node in Hp; lia).
  rewrite <- (get_Mpow_ones _ _ Hp').
  rewrite (mmul_tab 10 10 1) by (apply dims_Mpow || apply dims_ones || lia).
  rewrite get_tab by lia.
  replace p with (Z.of_nat (Z.to_nat p)) at 1 by (unfold valid_node in Hp; lia).
  rewrite (py_index_nat _ _ _ (lookup_tab 10 1 _ _ Hp')), bind_Ok.
  reflexivity.
Qed.

(** ** The cache of the memoized counter is written once *)

Lemma elem_of_stored_keys (history : list event) (key : Z * Z) :
  key ∈ stored_keys history ↔ ∃ w, Stored key w ∈ history.
Proof.
  unfold stored_keys. rewrite list_elem_of_omap. split.
  - intros ([k'|k' w] & Hin & Heq); [done|]. inversion Heq; subst. eauto.
  - intros (w & Hin). exists (Stored key w). eauto.
Qed.

Lemma trace_ok_app (c0 c1 c2 : gmap (Z * Z) Z) (tr1 tr2 : list event) (b : Z) :
  trace_ok c0 c1 tr1 b → trace_ok c1 c2 tr2 b →
  trace_ok c0 c2 (tr1 ++ tr2) b.
Proof.
  intros (Hsub1 & Hst1 & Hnd1 & Hca1) (Hsub2 & Hst2 & Hnd2 & Hca2).
  split; [by transitivity c1|]. split; [|split].
  - intros key w [Hin|Hin]%elem_of_app.
    + destruct (Hst1 key w Hin) as (Hn & Hs & Hb).
      repeat split; try done; try lia. by eapply lookup_weaken.
    + destruct (Hst2 key w Hin) as (Hn & Hs & Hb).
      repeat split; try done; try lia. by eapply lookup_weaken_None.
  - unfold stored_keys. rewrite omap_app. apply NoDup_app.
    split; [done|]. split; [|done].
    intros key [w1 Hin1]%elem_of_stored_keys [w2 Hin2]%elem_of_stored_keys.
    destruct (Hst1 key w1 Hin1) as (_ & Hs & _).
    destruct (Hst2 key w2 Hin2) as (Hn & _ & _). congruence.
  - intros key [Hin|Hin]%elem_of_app Hk.
    + eapply lookup_weaken_is_Some; [|done]. by apply Hca1.
    + by apply Hca2.
Qed.

Lemma trace_ok_nil (c : gmap (Z * Z) Z) (b : Z) : trace_ok c c [] b.
Proof.
  split; [done|]. split; [|split].
  - intros key w Hin. by apply elem_of_nil in Hin.
  - constructor.
  - intros key Hin. by apply elem_of_nil in Hin.
Qed.

(** The invariant of a call to the helper with enough depth left. *)
Lemma helper_traced_ok (fuel : nat) (p h : Z) (c : gmap (Z * Z) Z) :
  valid_node p → 0 ≤ h → (Z.to_nat h < fuel)%nat →
  ∃ v c' tr,
    helper_traced fuel p h c = Ok (v, c', tr)
    ∧ trace_ok c c' tr h
    ∧ (c !! (p, h) = None → 1 ≤ h → c' !! (p, h) = Some v).
Proof.
  revert p h c. induction fuel as [|fuel IH]; intros p h c Hp Hh Hfuel; [lia|].
  cbn [helper_traced]. destruct (c !! (p, h)) as [v|] eqn:Hlook.
  - exists v, c, [Called (p, h)]. split; [done|]. split; [|done].
    split; [done|]. split; [|split].
    + intros key w Hin. apply list_elem_of_singleton in Hin. done.
    + constructor.
    + intros key Hin _. apply list_elem_of_singleton in Hin.
      inversion Hin; subst. eauto.
  - case_bool_decide as Hz.
    + subst h. exists 1, c, [Called (p, 0)]. split; [done|].
      split; [|intros; lia]. split; [done|]. split; [|split].
      * intros key w Hin. apply list_elem_of_singleton in Hin. done.
      * constructor.
      * intros key Hin Hk. apply list_elem_of_singleton in Hin.
        inversion Hin; subst. simpl in Hk. lia.
    + rewrite neighbors_valid, bind_Ok by done.
      pose proof (nbrs_valid p Hp) as Hall.
      assert (∀ (acc : Z) (c1 : gmap (Z * Z) Z) (tr0 : list event),
        ∃ acc' c2 tr,
          for_in (nbrs p) (fun neighbor '(num_sequences, cache, history) =>
            '(c, cache, history') ←
              helper_traced fuel neighbor (h - 1) cache;
            Ok (num_sequences + c, cache, history ++ history'))
            (acc, c1, tr0)
          = Ok (acc', c2, tr0 ++ tr)
          ∧ trace_ok c1 c2 tr (h - 1)) as Hloop.
      { induction Hall as [|n ns Hn Hns IHns]; intros acc c1 tr0; cbn [for_in].
        - exists acc, c1, []. rewrite app_nil_r. split; [done|].
          apply trace_ok_nil.
        - destruct (IH n (h - 1) c1) as (v1 & c2 & tr1 & -> & Hok1 & _);
            [done|lia|lia|].
          rewrite !bind_Ok. cbn beta iota.
          destruct (IHns (acc + v1) c2 (tr0 ++ tr1))
            as (acc' & c3 & tr2 & -> & Hok2).
          exists acc', c3, (tr1 ++ tr2). rewrite app_assoc.
          split; [done|]. by eapply trace_ok_app. }
      destruct (Hloop 0 c [Called (p, h)]) as (v & c2 & tr & -> & Hok).
      rewrite bind_Ok. cbn beta iota.
      exists v, (<[(p, h) := v]> c2), (([Called (p, h)] ++ tr) ++ [Stored (p, h) v]).
      split; [done|]. split; [|intros; apply lookup_insert_eq].
      destruct Hok as (Hsub & Hst & Hnd & Hca).
      split; [by apply insert_subseteq_r|]. split; [|split].
      * intros key w [[Hin|Hin]%elem_of_app|Hin]%elem_of_app.
        -- apply list_elem_of_singleton in Hin. done.
        -- destruct (Hst key w Hin) as (Hn & Hs & Hb).
           repeat split; try done; try lia.
           rewrite lookup_insert_ne; [done|].
           intros <-. simpl in Hb. lia.
        -- apply list_elem_of_singleton in Hin. inversion Hin; subst.
           simpl. repeat split; try done; try lia. apply lookup_insert_eq.
      * unfold stored_keys. rewrite !omap_app. simpl. apply NoDup_app.
        split; [done|]. split; [|apply NoDup_singleton].
        intros key [w Hin]%elem_of_stored_keys Hkey.
        apply list_elem_of_singleton in Hkey. subst key.
        destruct (Hst _ w Hin) as (_ & _ & Hb). simpl in Hb. lia.
      * intros key [[Hin|Hin]%elem_of_app|Hin]%elem_of_app Hk.
        -- apply list_elem_of_singleton in Hin. inversion Hin; subst.
           rewrite lookup_insert_eq. eauto.
        -- apply lookup_insert_is_Some'. right. by apply Hca.
        -- apply list_elem_of_singleton in Hin. done.
Qed.

Lemma helper_traced_erase (fuel : nat) (p h : Z) (c : gmap (Z * Z) Z) :
  erase (helper_traced fuel p h c) = helper fuel p h c.
Proof.
  revert p h c. induction fuel as [|fuel IH]; intros p h c; [done|].
  cbn [helper_traced helper]. destruct (c !! (p, h)) as [v|]; [done|].
  case_bool_decide; [done|].
  destruct (neighbors p) as [ns|e]; [|done]. rewrite !bind_Ok.
  assert (∀ acc c1 tr0,
    erase (for_in ns (fun neighbor '(num_sequences, cache, history) =>
             '(c, cache, history') ←
               helper_traced fuel neighbor (h - 1) cache;
             Ok (num_sequences + c, cache, history ++ history'))
             (acc, c1, tr0))
    = for_in ns (fun neighbor '(num_sequences, cache) =>
        '(c, cache) ← helper fuel neighbor (h - 1) cache;
        Ok (num_sequences + c, cache)) (acc, c1)) as Hloop.
  { induction ns as [|n ns IHns]; intros acc c1 tr0; cbn [for_in]; [done|].
    rewrite <- (IH n (h - 1) c1).
    destruct (helper_traced fuel n (h - 1) c1) as [[[v c2] tr1]|e]; [|done].
    cbn [erase]. rewrite !bind_Ok. cbn beta iota. apply IHns. }
  rewrite <- (Hloop 0 c [Called (p, h)]).
  destruct (for_in ns _ _) as [[[v c2] tr]|e]; done.
Qed.

(** ** Negative hop counts

    No function looks at the sign of [num_hops].  The recursive ones test
    [num_hops == 0] only, so from a node with a neighbour a negative count
    is decreased until the recursion limit is reached. *)

Lemma nbrs_head (p : Z) :
  valid_node p → p ≠ 5 →
  ∃ n ns, nbrs p = n :: ns ∧ valid_node n ∧ n ≠ 5.
Proof.
  intros Hp H5. unfold valid_node.
  each_node Hp; try done; vm_compute nbrs; eexists _, _;
    (split; [reflexivity|]); lia.
Qed.

Lemma count_sequences_rec_negative (fuel : nat) (p h : Z) :
  valid_node p → p ≠ 5 → h < 0 →
  count_sequences_rec fuel p h = Raise RecursionError.
Proof.
  revert p h. induction fuel as [|fuel IH]; intros p h Hp H5 Hh; [done|].
  cbn [count_sequences_rec]. rewrite bool_decide_false by lia.
  rewrite neighbors_valid, bind_Ok by done.
  destruct (nbrs_head p Hp H5) as (n & ns & -> & Hn & Hn5).
  apply for_in_raise_first. by rewrite IH by (done || lia).
Qed.

Lemma yield_sequences_negative (fuel : nat) (p h : Z) (sq : option (list Z)) :
  valid_node p → p ≠ 5 → h < 0 →
  yield_sequences fuel p h sq = Raise RecursionError.
Proof.
  revert p h sq. induction fuel as [|fuel IH]; intros p h sq Hp H5 Hh; [done|].
  cbn [yield_sequences]. rewrite bool_decide_false by lia.
  rewrite neighbors_valid, bind_Ok by done.
  destruct (nbrs_head p Hp H5) as (n & ns & -> & Hn & Hn5).
  apply for_in_raise_first. by rewrite IH by (done || lia).
Qed.

Lemma helper_negative (fuel : nat) (p h : Z) :
  valid_node p → p ≠ 5 → h < 0 → helper fuel p h ∅ = Raise RecursionError.
Proof.
  revert p h. induction fuel as [|fuel IH]; intros p h Hp H5 Hh; [done|].
  cbn [helper]. rewrite lookup_empty. rewrite bool_decide_false by lia.
  rewrite neighbors_valid, bind_Ok by done.
  destruct (nbrs_head p Hp H5) as (n & ns & -> & Hn & Hn5).
  erewrite for_in_raise_first; [done|]. by rewrite IH by (done || lia).
Qed.

(** Node 5 has no neighbour: for any hop count but 0 the loops over its
    neighbours are empty and the count is 0. *)
Lemma recursive_counters_node_5 (fuel : nat) (h : Z) :
  h ≠ 0 →
  count_sequences (S fuel) 5 h = Ok 0
  ∧ count_sequences_rec (S fuel) 5 h = Ok 0
  ∧ count_sequences_mem (S fuel) 5 h = Ok 0.
Proof.
  intros Hh. unfold count_sequences, count_sequences_mem.
  cbn [yield_sequences count_sequences_rec helper].
  rewrite lookup_empty. rewrite !bool_decide_false by done. done.
Qed.

(** ** The adjacency list against the adjacency matrix *)

Lemma nbrs_symmetric (i j : Z) :
  valid_node i → valid_node j → j ∈ nbrs i ↔ i ∈ nbrs j.
Proof.
  intros Hi Hj.
  rewrite <- (bool_decide_eq_true (j ∈ nbrs i)),
          <- (bool_decide_eq_true (i ∈ nbrs j)).
  each_node Hi; each_node Hj; vm_compute; done.
Qed.

(** Row 3 is the only row of the matrix that differs from the list. *)
Lemma matrix_entry_nbrs (i j : Z) :
  valid_node i → valid_node j → i ≠ 3 →
  matrix_entry i j = Ok (if bool_decide (j ∈ nbrs i) then 1 else 0).
Proof.
  intros Hi Hj H3. each_node Hi; try done; each_node Hj; vm_compute; done.
Qed.

(** The four counters that read the adjacency list agree as soon as there
    is a hop to make. *)
Lemma list_counters_agree (fuel : nat) (p h : Z) :
  valid_node p → 1 ≤ h → (Z.to_nat h < fuel)%nat →
  count_sequences fuel p h = Ok (count_spec (Z.to_nat h) p)
  ∧ count_sequences_rec fuel p h = Ok (count_spec (Z.to_nat h) p)
  ∧ count_sequences_mem fuel p h = Ok (count_spec (Z.to_nat h) p)
  ∧ count_sequences_dyn p h = Ok (count_spec (Z.to_nat h) p).
Proof.
  intros Hp Hh Hfuel.
  rewrite count_sequences_spec, count_sequences_rec_spec,
    count_sequences_mem_spec, count_sequences_dyn_spec by (done || lia).
  done.
Qed.

Lemma count_spec_node_5 (k : nat) : count_spec (S k) 5 = 0.
Proof. reflexivity. Qed.

Lemma count_mat_node_5 (k : nat) : count_mat (S k) 5 = 0.
Proof.
  cbn [count_mat]. rewrite (Zsum_fmap_ext _ (fun _ => 0)).
  - apply Zsum_fmap_zero.
  - intros j Hj%elem_of_seq_lt. rewrite M10_rows.
    do 10 (destruct j as [|j]; [reflexivity|]). lia.
Qed.

(** * The claims *)

(** C1 (fails on the code): the five counters do not agree for all valid
    starts and 0 <= hops <= 6.  With no hop to make [count_sequences_dyn]
    returns 0 where the other four return 1, and for start 3 and 2 hops
    [count_sequences_log] returns 4 where the other four return 5. *)
Theorem C1_counters_disagree :
  (count_sequences 7 0 0 = Ok 1
   ∧ count_sequences_rec 7 0 0 = Ok 1
   ∧ count_sequences_mem 7 0 0 = Ok 1
   ∧ count_sequences_log 0 0 = Ok 1
   ∧ count_sequences_dyn 0 0 = Ok 0)
  ∧ (count_sequences 7 3 2 = Ok 5
     ∧ count_sequences_rec 7 3 2 = Ok 5
     ∧ count_sequences_mem 7 3 2 = Ok 5
     ∧ count_sequences_dyn 3 2 = Ok 5
     ∧ count_sequences_log 3 2 = Ok 4).
Proof. vm_compute. done. Qed.

(** C2 (fails on the code): the matrix and the list do not hold the same
    edges.  [NEIGHBORS_MATRIX[3][3]] is 1 although 3 is not in
    [NEIGHBORS_MAP[3]], and [NEIGHBORS_MATRIX[3][4]] is 0 although 4 is. *)
Theorem C2_matrix_differs_from_list :
  neighbors 3 = Ok [4; 8]
  ∧ matrix_entry 3 3 = Ok 1
  ∧ matrix_entry 3 4 = Ok 0.
Proof. vm_compute. done. Qed.

(** C3 (fails on the code): with [hops = 0], [count_sequences_dyn] does not
    enter its loop and returns the entry of the list of zeros, 0, for every
    start node; the other four counters return 1. *)
Theorem C3_dyn_zero_hops :
  Forall (fun p =>
    count_sequences_dyn p 0 = Ok 0
    ∧ count_sequences 1 p 0 = Ok 1
    ∧ count_sequences_rec 1 p 0 = Ok 1
    ∧ count_sequences_mem 1 p 0 = Ok 1
    ∧ count_sequences_log p 0 = Ok 1) (seqZ 0 10).
Proof. repeat constructor; vm_compute; reflexivity. Qed.

(** C4 (fails on the code): the recurrence over [NEIGHBORS_MAP] does not
    hold for the outputs of [count_sequences_dyn] and [count_sequences_log].
    [count_sequences_dyn(6, 1)] is 3 while its values at the neighbours
    1, 7, 0 of 6 with 0 hops are all 0; [count_sequences_log(3, 2)] is 4
    while its values at the neighbours 4, 8 of 3 with 1 hop add up to 5. *)
Theorem C4_recurrence_broken :
  (neighbors 6 = Ok [1; 7; 0]
   ∧ count_sequences_dyn 6 1 = Ok 3
   ∧ count_sequences_dyn 1 0 = Ok 0
   ∧ count_sequences_dyn 7 0 = Ok 0
   ∧ count_sequences_dyn 0 0 = Ok 0)
  ∧ (neighbors 3 = Ok [4; 8]
     ∧ count_sequences_log 3 2 = Ok 4
     ∧ count_sequences_log 4 1 = Ok 3
     ∧ count_sequences_log 8 1 = Ok 2).
Proof. vm_compute. done. Qed.

(** C5: for every valid start node and every [hops >= 0], with more call
    depth available than there are hops, [count_sequences],
    [count_sequences_rec] and [count_sequences_mem] return the same
    integer. *)
Theorem C5_naive_rec_mem_agree (fuel : nat) (start hops : Z) :
  valid_node start → 0 ≤ hops → (Z.to_nat hops < fuel)%nat →
  ∃ v, count_sequences fuel start hops = Ok v
       ∧ count_sequences_rec fuel start hops = Ok v
       ∧ count_sequences_mem fuel start hops = Ok v.
Proof.
  intros Hs Hh Hfuel. exists (count_spec (Z.to_nat hops) start).
  by rewrite count_sequences_spec, count_sequences_rec_spec,
    count_sequences_mem_spec.
Qed.

Lemma C5_witness :
  valid_node 6 ∧ 0 ≤ 2 ∧ (Z.to_nat 2 < 3)%nat
  ∧ ∃ v, count_sequences 3 6 2 = Ok v
         ∧ count_sequences_rec 3 6 2 = Ok v
         ∧ count_sequences_mem 3 6 2 = Ok v.
Proof.
  assert (valid_node 6) as H1 by (unfold valid_node; lia).
  assert (0 ≤ 2) as H2 by lia.
  assert (Z.to_nat 2 < 3)%nat as H3 by (simpl; lia).
  exact (conj H1 (conj H2 (conj H3 (C5_naive_rec_mem_agree 3 6 2 H1 H2 H3)))).
Defined.

(** C6 (fails on the code): [NEIGHBORS_MATRIX] is not symmetric:
    [NEIGHBORS_MATRIX[3][4]] is 0 and [NEIGHBORS_MATRIX[4][3]] is 1. *)
Theorem C6_matrix_not_symmetric :
  matrix_entry 3 4 = Ok 0 ∧ matrix_entry 4 3 = Ok 1.
Proof. vm_compute. done. Qed.

(** C7, as stated, fails: for start 6 and [hops = -1],
    [count_sequences_dyn] returns 0 and [count_sequences_log] returns 3;
    [count_sequences_rec] returns 0 from node 5 and reaches the recursion
    limit from node 6.  None of these is a rejection of the hop count. *)
Lemma C7_counterexample :
  count_sequences_dyn 6 (-1) = Ok 0
  ∧ count_sequences_log 6 (-1) = Ok 3
  ∧ count_sequences_rec 50 5 (-1) = Ok 0
  ∧ count_sequences_rec 50 6 (-1) = Raise RecursionError.
Proof. vm_compute. done. Qed.

(** C7, amended: for every valid start node and every negative [hops], no
    counter rejects the hop count.  [count_sequences_dyn] returns 0;
    [count_sequences_log] returns the integer it returns for [-hops];
    [count_sequences], [count_sequences_rec] and [count_sequences_mem]
    never reach their base case: from node 5, which has no neighbour, they
    return 0, and from any other node they raise [RecursionError] whatever
    the call depth available. *)
Theorem C7_negative_hops (start hops : Z) :
  valid_node start → hops < 0 →
  count_sequences_dyn start hops = Ok 0
  ∧ (∃ v, count_sequences_log start hops = Ok v
          ∧ count_sequences_log start (- hops) = Ok v)
  ∧ (∀ fuel, start ≠ 5 →
       count_sequences fuel start hops = Raise RecursionError
       ∧ count_sequences_rec fuel start hops = Raise RecursionError
       ∧ count_sequences_mem fuel start hops = Raise RecursionError)
  ∧ (∀ fuel, start = 5 →
       count_sequences (S fuel) start hops = Ok 0
       ∧ count_sequences_rec (S fuel) start hops = Ok 0
       ∧ count_sequences_mem (S fuel) start hops = Ok 0).
Proof.
  intros Hs Hh. split; [apply count_sequences_dyn_no_hop; [done|lia]|].
  split; [|split].
  - eexists. split; [by apply count_sequences_log_spec|].
    rewrite count_sequences_log_spec by done. do 2 f_equal. lia.
  - intros fuel H5. split; [|split].
    + unfold count_sequences. by rewrite yield_sequences_negative.
    + by apply count_sequences_rec_negative.
    + unfold count_sequences_mem. by rewrite helper_negative.
  - intros fuel ->. apply recursive_counters_node_5. lia.
Qed.

Lemma C7_witness :
  valid_node 6 ∧ -2 < 0
  ∧ count_sequences_dyn 6 (-2) = Ok 0
  ∧ (∃ v, count_sequences_log 6 (-2) = Ok v
          ∧ count_sequences_log 6 (- -2) = Ok v)
  ∧ (∀ fuel, 6 ≠ 5 →
       count_sequences fuel 6 (-2) = Raise RecursionError
       ∧ count_sequences_rec fuel 6 (-2) = Raise RecursionError
       ∧ count_sequences_mem fuel 6 (-2) = Raise RecursionError)
  ∧ (∀ fuel, 6 = 5 →
       count_sequences (S fuel) 6 (-2) = Ok 0
       ∧ count_sequences_rec (S fuel) 6 (-2) = Ok 0
       ∧ count_sequences_mem (S fuel) 6 (-2) = Ok 0).
Proof.
  assert (valid_node 6) as H1 by (unfold valid_node; lia).
  assert (-2 < 0) as H2 by lia.
  exact (conj H1 (conj H2 (C7_negative_hops 6 (-2) H1 H2))).
Defined.

(** C8: for node 5 and every [hops >= 1], all five counters return 0 (the
    recursive ones need one level of call depth). *)
Theorem C8_isolated_node (fuel : nat) (hops : Z) :
  1 ≤ hops → (0 < fuel)%nat →
  count_sequences fuel 5 hops = Ok 0
  ∧ count_sequences_rec fuel 5 hops = Ok 0
  ∧ count_sequences_mem fuel 5 hops = Ok 0
  ∧ count_sequences_dyn 5 hops = Ok 0
  ∧ count_sequences_log 5 hops = Ok 0.
Proof.
  intros Hh Hfuel. assert (valid_node 5) as H5 by (unfold valid_node; lia).
  destruct fuel as [|fuel]; [lia|].
  destruct (recursive_counters_node_5 fuel hops) as (-> & -> & ->); [lia|].
  rewrite count_sequences_dyn_spec, count_sequences_log_spec by done.
  change (Z.to_nat 5) with 5%nat.
  replace (Z.to_nat (Z.abs hops)) with (S (Z.to_nat (hops - 1))) by lia.
  replace (Z.to_nat hops) with (S (Z.to_nat (hops - 1))) by lia.
  by rewrite count_spec_node_5, count_mat_node_5.
Qed.

Lemma C8_witness :
  1 ≤ 3 ∧ (0 < 1)%nat
  ∧ count_sequences 1 5 3 = Ok 0
  ∧ count_sequences_rec 1 5 3 = Ok 0
  ∧ count_sequences_mem 1 5 3 = Ok 0
  ∧ count_sequences_dyn 5 3 = Ok 0
  ∧ count_sequences_log 5 3 = Ok 0.
Proof.
  assert (1 ≤ 3) as H1 by lia.
  assert (0 < 1)%nat as H2 by lia.
  exact (conj H1 (conj H2 (C8_isolated_node 1 3 H1 H2))).
Defined.

(** C9, as stated, fails for [h = 0]: the helper called on (6, 0) with an
    empty cache returns 1 and stores nothing, so the evaluated pair (6, 0)
    is not a key of the cache after the call. *)
Lemma C9_counterexample :
  helper 1 6 0 ∅ = Ok (1, ∅)
  ∧ helper_traced 1 6 0 ∅ = Ok (1, ∅, [Called (6, 0)])
  ∧ (∅ : gmap (Z * Z) Z) !! (6, 0) = None.
Proof. split; [|split]; reflexivity. Qed.

(** C9, amended: for every valid position [p] and every [h >= 1], when the
    helper is called on [(p, h)] with enough call depth and the key
    [(p, h)] is not in the cache, it returns with its result stored under
    [(p, h)]; every pair with at least one hop that the helper was called
    on in the course of the call is then a key of the cache; and each key
    is stored at most once, and only if it was not in the cache before. *)
Theorem C9_cache_write_once (fuel : nat) (p h : Z) (cache : gmap (Z * Z) Z) :
  valid_node p → 1 ≤ h → (Z.to_nat h < fuel)%nat → cache !! (p, h) = None →
  ∃ v cache' history,
    helper_traced fuel p h cache = Ok (v, cache', history)
    ∧ helper fuel p h cache = Ok (v, cache')
    ∧ cache' !! (p, h) = Some v
    ∧ (∀ key, Called key ∈ history → 1 ≤ key.2 → is_Some (cache' !! key))
    ∧ NoDup (stored_keys history)
    ∧ (∀ key, key ∈ stored_keys history → cache !! key = None).
Proof.
  intros Hp Hh Hfuel Hmiss.
  destruct (helper_traced_ok fuel p h cache Hp ltac:(lia) Hfuel)
    as (v & c' & tr & Hrun & (Hsub & Hst & Hnd & Hca) & Hkey).
  exists v, c', tr. split; [done|]. split; [|split; [|split; [|split]]].
  - by rewrite <- helper_traced_erase, Hrun.
  - by apply Hkey.
  - done.
  - done.
  - intros key [w Hin]%elem_of_stored_keys. by destruct (Hst key w Hin).
Qed.

Lemma C9_witness :
  valid_node 6 ∧ 1 ≤ 2 ∧ (Z.to_nat 2 < 3)%nat
  ∧ (∅ : gmap (Z * Z) Z) !! (6, 2) = None
  ∧ ∃ v cache' history,
      helper_traced 3 6 2 ∅ = Ok (v, cache', history)
      ∧ helper 3 6 2 ∅ = Ok (v, cache')
      ∧ cache' !! (6, 2) = Some v
      ∧ (∀ key, Called key ∈ history → 1 ≤ key.2 → is_Some (cache' !! key))
      ∧ NoDup (stored_keys history)
      ∧ (∀ key, key ∈ stored_keys history
                → (∅ : gmap (Z * Z) Z) !! key = None).
Proof.
  assert (valid_node 6) as H1 by (unfold valid_node; lia).
  assert (1 ≤ 2) as H2 by lia.
  assert (Z.to_nat 2 < 3)%nat as H3 by (simpl; lia).
  assert ((∅ : gmap (Z * Z) Z) !! (6, 2) = None) as H4 by reflexivity.
  exact (conj H1 (conj H2 (conj H3 (conj H4
           (C9_cache_write_once 3 6 2 ∅ H1 H2 H3 H4))))).
Defined.

(** C10: the adjacency list is symmetric: for all nodes [i], [j] in 0..9,
    [j] is in [NEIGHBORS_MAP[i]] if and only if [i] is in
    [NEIGHBORS_MAP[j]]. *)
Theorem C10_adjacency_list_symmetric (i j : Z) (li lj : list Z) :
  valid_node i → valid_node j →
  neighbors i = Ok li → neighbors j = Ok lj →
  j ∈ li ↔ i ∈ lj.
Proof.
  intros Hi Hj Hli Hlj.
  rewrite neighbors_valid in Hli, Hlj by done.
  inversion Hli; inversion Hlj; subst. by apply nbrs_symmetric.
Qed.

Lemma C10_witness :
  valid_node 4 ∧ valid_node 0
  ∧ neighbors 4 = Ok [3; 9; 0] ∧ neighbors 0 = Ok [4; 6]
  ∧ (0 ∈ [3; 9; 0] ↔ 4 ∈ [4; 6]).
Proof.
  assert (valid_node 4) as H1 by (unfold valid_node; lia).
  assert (valid_node 0) as H2 by (unfold valid_node; lia).
  assert (neighbors 4 = Ok [3; 9; 0]) as H3 by reflexivity.
  assert (neighbors 0 = Ok [4; 6]) as H4 by reflexivity.
  exact (conj H1 (conj H2 (conj H3 (conj H4
           (C10_adjacency_list_symmetric 4 0 _ _ H1 H2 H3 H4))))).
Defined.

(** * Further properties of the code *)

(** ** The enumeration yields the walks *)

(** A loop that appends what each call yields returns the concatenation. *)
Lemma for_in_concat {A B} (xs : list A) (f : A → result (list B))
    (acc seqs : list B) :
  for_in xs (fun x yielded => ys ← f x; Ok (yielded ++ ys)) acc = Ok seqs ↔
  ∃ yss, Forall2 (fun x ys => f x = Ok ys) xs yss ∧ seqs = acc ++ mjoin yss.
Proof.
  revert acc. induction xs as [|x xs IH]; intros acc; cbn [for_in].
  - split.
    + intros [= <-]. exists []. split; [constructor|]. by rewrite app_nil_r.
    + intros (yss & Hall & ->). inversion Hall; subst. simpl.
      by rewrite app_nil_r.
  - split.
    + intros Hrun. apply bind_Ok_inv in Hrun as (acc1 & Hx & Hrun).
      apply bind_Ok_inv in Hx as (ys & Hfx & [= <-]).
      apply IH in Hrun as (yss & Hall & ->).
      exists (ys :: yss). split; [by constructor|]. simpl. by rewrite app_assoc.
    + intros (yss & Hall & ->). inversion Hall as [|? ys ? yss' Hfx Hall']; subst.
      rewrite Hfx, !bind_Ok. apply IH. exists yss'. split; [done|].
      simpl. by rewrite app_assoc.
Qed.

Lemma NEIGHBORS_MAP_None (p : Z) : ¬ valid_node p → NEIGHBORS_MAP !! p = None.
Proof.
  intros Hp. unfold NEIGHBORS_MAP. apply not_elem_of_list_to_map_1.
  cbn [fmap list_fmap fst]. rewrite !not_elem_of_cons.
  unfold valid_node in Hp. repeat split; try lia. apply not_elem_of_nil.
Qed.

Lemma neighbors_Ok_inv (p : Z) (ns : list Z) :
  neighbors p = Ok ns → valid_node p ∧ ns = nbrs p.
Proof.
  intros Hn. destruct (decide (valid_node p)) as [Hp|Hp].
  - rewrite neighbors_valid in Hn by done. by inversion Hn.
  - unfold neighbors, dict_index in Hn.
    by rewrite NEIGHBORS_MAP_None in Hn.
Qed.

Lemma neighbors_KeyError (p : Z) : ¬ valid_node p → neighbors p = Raise KeyError.
Proof.
  intros Hp. unfold neighbors, dict_index. by rewrite NEIGHBORS_MAP_None.
Qed.

Lemma nbrs_NoDup (p : Z) : valid_node p → NoDup (nbrs p).
Proof.
  intros Hp. each_node Hp; vm_compute nbrs;
    repeat (constructor; [rewrite ?not_elem_of_cons; repeat split;
                          (lia || apply not_elem_of_nil)|]);
    constructor.
Qed.

(** What a call of the generator yields, in terms of what its calls for the
    neighbours yield. *)
Lemma yield_sequences_unfold (fuel : nat) (p h : Z) (s : list Z)
    (seqs : list (list Z)) :
  h ≠ 0 →
  yield_sequences (S fuel) p h (Some s) = Ok seqs →
  valid_node p
  ∧ ∃ yss,
      Forall2 (fun n ys =>
        yield_sequences fuel n (h - 1) (Some (s ++ [n])) = Ok ys) (nbrs p) yss
      ∧ seqs = mjoin yss.
Proof.
  intros Hh Hrun. cbn [yield_sequences] in Hrun.
  rewrite bool_decide_false in Hrun by done.
  apply bind_Ok_inv in Hrun as (ns & Hns & Hrun).
  apply neighbors_Ok_inv in Hns as [Hp ->]. split; [done|].
  apply for_in_concat in Hrun as (yss & Hall & ->). by exists yss.
Qed.

Lemma yield_sequences_sound (fuel : nat) (p h : Z) (s : list Z)
    (seqs : list (list Z)) :
  yield_sequences fuel p h (Some s) = Ok seqs →
  ∀ w, w ∈ seqs →
    ∃ t, w = s ++ t ∧ Z.of_nat (length t) = h ∧ is_walk (p :: t).
Proof.
  revert p h s seqs.
  induction fuel as [|fuel IH]; intros p h s seqs Hrun w Hw; [done|].
  destruct (decide (h = 0)) as [->|Hh].
  - cbn [yield_sequences] in Hrun. rewrite bool_decide_true in Hrun by done.
    inversion Hrun; subst. apply list_elem_of_singleton in Hw as ->.
    exists []. by rewrite app_nil_r.
  - apply yield_sequences_unfold in Hrun as (Hp & yss & Hall & ->); [|done].
    apply list_elem_of_join in Hw as (ys & Hw & Hys).
    apply list_elem_of_lookup in Hys as [i Hi].
    destruct (Forall2_lookup_r _ _ _ _ _ Hall Hi) as (n & Hn & Hrun).
    destruct (IH _ _ _ _ Hrun w Hw) as (t & -> & Hlen & Hwalk).
    exists (n :: t). split; [by rewrite <- app_assoc|].
    split; [simpl; lia|]. split; [|done].
    apply list_elem_of_lookup. eauto.
Qed.

Lemma yield_sequences_complete (fuel : nat) (p h : Z) (s : list Z)
    (seqs : list (list Z)) (t : list Z) :
  yield_sequences fuel p h (Some s) = Ok seqs →
  Z.of_nat (length t) = h → is_walk (p :: t) → s ++ t ∈ seqs.
Proof.
  revert p h s seqs t.
  induction fuel as [|fuel IH]; intros p h s seqs t Hrun Hlen Hwalk; [done|].
  destruct t as [|n t].
  - simpl in Hlen. subst h. cbn [yield_sequences] in Hrun.
    rewrite bool_decide_true in Hrun by done. inversion Hrun; subst.
    rewrite app_nil_r. by apply list_elem_of_singleton.
  - apply yield_sequences_unfold in Hrun as (Hp & yss & Hall & ->);
      [|simpl in Hlen; lia].
    destruct Hwalk as [Hn Hwalk].
    apply list_elem_of_lookup in Hn as [i Hi].
    destruct (Forall2_lookup_l _ _ _ _ _ Hall Hi) as (ys & Hys & Hrun).
    apply list_elem_of_join. exists ys. split.
    + replace (s ++ n :: t) with ((s ++ [n]) ++ t) by by rewrite <- app_assoc.
      apply (IH _ _ _ _ _ Hrun); [simpl in Hlen; lia|done].
    + apply list_elem_of_lookup. eauto.
Qed.

Lemma yield_sequences_NoDup (fuel : nat) (p h : Z) (s : list Z)
    (seqs : list (list Z)) :
  yield_sequences fuel p h (Some s) = Ok seqs → NoDup seqs.
Proof.
  revert p h s seqs.
  induction fuel as [|fuel IH]; intros p h s seqs Hrun; [done|].
  destruct (decide (h = 0)) as [->|Hh].
  - cbn [yield_sequences] in Hrun. rewrite bool_decide_true in Hrun by done.
    inversion Hrun; subst. apply NoDup_singleton.
  - apply yield_sequences_unfold in Hrun as (Hp & yss & Hall & ->); [|done].
    pose proof (nbrs_NoDup p Hp) as Hnd.
    induction Hall as [|n ys ns yss Hn Hall IHall]; [constructor|].
    apply NoDup_cons in Hnd as [Hnotin Hnd]. simpl. apply NoDup_app.
    split; [by eapply IH|]. split; [|by apply IHall].
    intros w Hw Hw'. apply list_elem_of_join in Hw' as (ys' & Hw' & Hys').
    apply list_elem_of_lookup in Hys' as [i Hi].
    destruct (Forall2_lookup_r _ _ _ _ _ Hall Hi) as (n' & Hn' & Hrun').
    destruct (yield_sequences_sound _ _ _ _ _ Hn w Hw) as (t & -> & _ & _).
    destruct (yield_sequences_sound _ _ _ _ _ Hrun' _ Hw') as (t' & Heq & _ & _).
    rewrite <- !app_assoc in Heq. apply app_inv_head in Heq.
    inversion Heq; subst. apply Hnotin. apply list_elem_of_lookup. eauto.
Qed.

(** ** Growth and symmetry of the counts *)

Lemma nbrs_cases (p : Z) :
  valid_node p → p ≠ 5 →
  ∃ a b rest, nbrs p = a :: b :: rest ∧ (length rest ≤ 1)%nat
              ∧ Forall (fun n => valid_node n ∧ n ≠ 5) (a :: b :: rest).
Proof.
  intros Hp H5. unfold valid_node.
  each_node Hp; try done; vm_compute nbrs; eexists _, _, _;
    (split; [reflexivity|]); (split; [simpl; lia|]);
    repeat constructor; lia.
Qed.

(** From a node with neighbours the count at least doubles and at most
    triples with each hop. *)
Lemma count_spec_bounds (h : nat) (p : Z) :
  valid_node p → p ≠ 5 →
  2 ^ Z.of_nat h ≤ count_spec h p ≤ 3 ^ Z.of_nat h.
Proof.
  revert p. induction h as [|h IH]; intros p Hp H5; [simpl; lia|].
  rewrite Nat2Z.inj_succ, !Z.pow_succ_r by lia. cbn [count_spec].
  destruct (nbrs_cases p Hp H5) as (a & b & rest & -> & Hlen & Hall).
  apply Forall_cons in Hall as [[Ha Ha5] Hall].
  apply Forall_cons in Hall as [[Hb Hb5] Hall].
  pose proof (IH a Ha Ha5). pose proof (IH b Hb Hb5).
  assert (0 < 2 ^ Z.of_nat h) by (apply Z.pow_pos_nonneg; lia).
  assert (0 < 3 ^ Z.of_nat h) by (apply Z.pow_pos_nonneg; lia).
  destruct rest as [|c [|? ?]]; [| |simpl in Hlen; lia].
  - cbn [fmap list_fmap]. rewrite !Zsum_cons, Zsum_nil.
    generalize dependent (2 ^ Z.of_nat h).
    generalize dependent (3 ^ Z.of_nat h). intros; lia.
  - apply Forall_cons in Hall as [[Hc Hc5] _]. pose proof (IH c Hc Hc5).
    cbn [fmap list_fmap]. rewrite !Zsum_cons, Zsum_nil.
    generalize dependent (2 ^ Z.of_nat h).
    generalize dependent (3 ^ Z.of_nat h). intros; lia.
Qed.

Lemma count_spec_mirror (h : nat) :
  count_spec h 1 = count_spec h 3
  ∧ count_spec h 4 = count_spec h 6
  ∧ count_spec h 7 = count_spec h 9
  ∧ count_spec h 1 = count_spec h 7
  ∧ count_spec h 2 = count_spec h 8.
Proof.
  induction h as [|h (H13 & H46 & H79 & H17 & H28)]; [done|].
  cbn [count_spec].
  change (nbrs 1) with [6; 8]. change (nbrs 2) with [7; 9].
  change (nbrs 3) with [4; 8]. change (nbrs 4) with [3; 9; 0].
  change (nbrs 6) with [1; 7; 0]. change (nbrs 7) with [2; 6].
  change (nbrs 8) with [1; 3]. change (nbrs 9) with [2; 4].
  cbn [fmap list_fmap]. rewrite !Zsum_cons, !Zsum_nil. lia.
Qed.

Lemma count_spec_mirror_lr (h : nat) (p : Z) :
  count_spec h (mirror_lr p) = count_spec h p.
Proof.
  destruct (count_spec_mirror h) as (H13 & H46 & H79 & _).
  unfold mirror_lr. repeat case_bool_decide; subst; congruence.
Qed.

Lemma count_spec_mirror_ud (h : nat) (p : Z) :
  count_spec h (mirror_ud p) = count_spec h p.
Proof.
  destruct (count_spec_mirror h) as (H13 & H46 & H79 & H17 & H28).
  unfold mirror_ud. repeat case_bool_decide; subst; congruence.
Qed.

Lemma mirror_valid (p : Z) :
  valid_node p → valid_node (mirror_lr p) ∧ valid_node (mirror_ud p).
Proof.
  unfold valid_node, mirror_lr, mirror_ud.
  intros Hp. split; repeat case_bool_decide; lia.
Qed.

(** ** Call depth *)




(** ** Start positions that are not nodes *)

Lemma py_index_wrap {A} (l : list A) (i : Z) :
  - Z.of_nat (length l) ≤ i < 0 →
  py_index l i = py_index l (i + Z.of_nat (length l)).
Proof.
  intros Hi. unfold py_index. cbv zeta.
  rewrite (bool_decide_true (i < 0)) by lia.
  by rewrite (bool_decide_false (i + Z.of_nat (length l) < 0)) by lia.
Qed.

Lemma py_index_out {A} (l : list A) (i : Z) :
  i < - Z.of_nat (length l) ∨ Z.of_nat (length l) ≤ i →
  py_index l i = Raise IndexError.
Proof.
  intros Hi. unfold py_index. cbv zeta.
  destruct (bool_decide (i < 0)) eqn:Hneg.
  - apply bool_decide_eq_true in Hneg. by rewrite bool_decide_false by lia.
  - apply bool_decide_eq_false in Hneg. by rewrite bool_decide_false by lia.
Qed.

(** What the loop of [count_sequences_dyn] leaves in [current_case]. *)
Lemma count_sequences_dyn_index (h : Z) :
  ∃ cur, length cur = 10%nat
         ∧ ∀ s, count_sequences_dyn s h = py_index cur s.
Proof.
  destruct (decide (1 ≤ h)) as [Hh|Hh].
  - exists (row (Z.to_nat h)). split.
    + unfold row. by rewrite length_fmap, length_seqZ.
    + intros s. unfold count_sequences_dyn.
      destruct (Z.to_nat h) as [|n] eqn:Hn; [lia|].
      rewrite <- row_0. rewrite (dyn_while_row n 0 h) by lia.
      by rewrite bind_Ok.
  - exists (replicate 10 0). split; [done|].
    intros s. unfold count_sequences_dyn.
    replace (Z.to_nat h) with O by lia. cbn [dyn_while current_num_hops].
    rewrite bool_decide_false by lia. by rewrite bind_Ok.
Qed.

(** What [count_sequences_log] indexes with the start position. *)
Lemma count_sequences_log_index (h : Z) :
  ∃ m, length m = 10%nat
       ∧ ∀ s, count_sequences_log s h = (r ← py_index m s; py_index r 0).
Proof.
  exists (mmul (Mpow (Z.to_nat (Z.abs h))) ones). split.
  - rewrite (mmul_tab 10 10 1) by (apply dims_Mpow || apply dims_ones || lia).
    apply length_tab.
  - intros s. unfold count_sequences_log. rewrite identity_10.
    destruct (log_loop _ (bits_nonempty h)) as (P' & ->).
    rewrite bind_Ok. cbn [accum]. rewrite bits_value_bin.
    rewrite (matrix_multiply_spec 10 10 1 _ _ (is_mat_Mpow _)
               (is_mat_MList 10 1 _ dims_ones)) by lia.
    by rewrite bind_Ok.
Qed.

(** ** The size of the cache and the number of calls of the helper *)

Lemma nbrs_length (p : Z) : valid_node p → (length (nbrs p) ≤ 3)%nat.
Proof. intros Hp. each_node Hp; vm_compute; lia. Qed.

Lemma elem_of_key_range (h : Z) (key : Z * Z) :
  key ∈ key_range h ↔ valid_node key.1 ∧ 1 ≤ key.2 ≤ h.
Proof.
  unfold key_range, valid_node. destruct key as [q k]. cbn [fst snd]. split.
  - intros (q' & Hin & Hq)%list_elem_of_bind.
    apply list_elem_of_fmap in Hin as (k' & [= -> ->] & Hk).
    apply elem_of_seqZ in Hk, Hq. lia.
  - intros [Hq Hk]. apply list_elem_of_bind. exists q. split.
    + apply list_elem_of_fmap. exists k. split; [done|].
      apply elem_of_seqZ. lia.
    + apply elem_of_seqZ. lia.
Qed.

Lemma length_key_range (h : Z) : length (key_range h) = (10 * Z.to_nat h)%nat.
Proof.
  unfold key_range. change (seqZ 0 10) with [0; 1; 2; 3; 4; 5; 6; 7; 8; 9].
  cbn [mbind list_bind]. rewrite !length_app, !length_fmap, !length_seqZ.
  simpl. lia.
Qed.

(** A list of distinct keys of the range is no longer than the range. *)
Lemma length_in_key_range (h : Z) (keys : list (Z * Z)) :
  NoDup keys → (∀ key, key ∈ keys → key ∈ key_range h) →
  (length keys ≤ 10 * Z.to_nat h)%nat.
Proof.
  intros Hnd Hin. rewrite <- length_key_range.
  apply submseteq_length. by apply NoDup_submseteq.
Qed.

(** Which keys a call stores, how many calls it makes for each store, and
    where the keys of the cache it leaves come from. *)
Lemma helper_traced_range (fuel : nat) (p h : Z) (c : gmap (Z * Z) Z) :
  valid_node p → 0 ≤ h → (Z.to_nat h < fuel)%nat →
  ∃ v c' tr,
    helper_traced fuel p h c = Ok (v, c', tr)
    ∧ (∀ key, key ∈ stored_keys tr → valid_node key.1)
    ∧ (length (called_keys tr) ≤ 1 + 3 * length (stored_keys tr))%nat
    ∧ (∀ key, is_Some (c' !! key) →
         is_Some (c !! key) ∨ key ∈ stored_keys tr).
Proof.
  revert p h c. induction fuel as [|fuel IH]; intros p h c Hp Hh Hfuel; [lia|].
  cbn [helper_traced]. destruct (c !! (p, h)) as [v|] eqn:Hlook.
  - exists v, c, [Called (p, h)]. split; [done|]. split; [|split].
    + intros key Hin. by apply elem_of_nil in Hin.
    + simpl. lia.
    + auto.
  - case_bool_decide as Hz.
    + exists 1, c, [Called (p, h)]. split; [done|]. split; [|split].
      * intros key Hin. by apply elem_of_nil in Hin.
      * simpl. lia.
      * auto.
    + rewrite neighbors_valid, bind_Ok by done.
      pose proof (nbrs_length p Hp) as Hdeg.
      pose proof (nbrs_valid p Hp) as Hall.
      assert (∀ (acc : Z) (c1 : gmap (Z * Z) Z) (tr0 : list event),
        ∃ acc' c2 tr,
          for_in (nbrs p) (fun neighbor '(num_sequences, cache, history) =>
            '(c, cache, history') ←
              helper_traced fuel neighbor (h - 1) cache;
            Ok (num_sequences + c, cache, history ++ history'))
            (acc, c1, tr0)
          = Ok (acc', c2, tr0 ++ tr)
          ∧ (∀ key, key ∈ stored_keys tr → valid_node key.1)
          ∧ (length (called_keys tr)
             ≤ length (nbrs p) + 3 * length (stored_keys tr))%nat
          ∧ (∀ key, is_Some (c2 !! key) →
               is_Some (c1 !! key) ∨ key ∈ stored_keys tr)) as Hloop.
      { clear Hdeg.
        induction Hall as [|n ns Hn Hns IHns]; intros acc c1 tr0; cbn [for_in].
        - exists acc, c1, []. rewrite app_nil_r. split; [done|].
          split; [|split]; [|simpl; lia|auto].
          intros key Hin. by apply elem_of_nil in Hin.
        - destruct (IH n (h - 1) c1)
            as (v1 & c2 & tr1 & -> & Hv1 & Hn1 & Hd1); [done|lia|lia|].
          rewrite !bind_Ok. cbn beta iota.
          destruct (IHns (acc + v1) c2 (tr0 ++ tr1))
            as (acc' & c3 & tr2 & -> & Hv2 & Hn2 & Hd2).
          exists acc', c3, (tr1 ++ tr2). rewrite app_assoc.
          split; [done|]. unfold stored_keys, called_keys in *.
          rewrite !omap_app, !length_app. split; [|split].
          + intros key [Hin|Hin]%elem_of_app; auto.
          + simpl. lia.
          + intros key Hkey. rewrite elem_of_app.
            destruct (Hd2 key Hkey) as [Hc2|?]; [|auto].
            destruct (Hd1 key Hc2); auto. }
      destruct (Hloop 0 c [Called (p, h)]) as (v & c2 & tr & -> & Hv & Hn & Hd).
      rewrite bind_Ok. cbn beta iota.
      exists v, (<[(p, h) := v]> c2),
        (([Called (p, h)] ++ tr) ++ [Stored (p, h) v]).
      split; [done|]. unfold stored_keys, called_keys in *.
      rewrite !omap_app, !length_app. simpl. split; [|split].
      * intros key [Hin|Hin]%elem_of_app; [auto|].
        apply list_elem_of_singleton in Hin. by subst.
      * lia.
      * intros key Hkey. rewrite elem_of_app, list_elem_of_singleton.
        apply lookup_insert_is_Some' in Hkey as [<-|Hkey]; [auto|].
        destruct (Hd key Hkey); auto.
Qed.

(** The two descriptions of a call of the helper, together. *)
Lemma helper_traced_facts (fuel : nat) (p h : Z) (c : gmap (Z * Z) Z) :
  valid_node p → 0 ≤ h → (Z.to_nat h < fuel)%nat →
  ∃ v c' tr,
    helper_traced fuel p h c = Ok (v, c', tr)
    ∧ helper fuel p h c = Ok (v, c')
    ∧ c ⊆ c'
    ∧ NoDup (stored_keys tr)
    ∧ (∀ key, key ∈ stored_keys tr → key ∈ key_range h)
    ∧ (length (called_keys tr) ≤ 1 + 3 * length (stored_keys tr))%nat
    ∧ (∀ key, is_Some (c' !! key) →
         is_Some (c !! key) ∨ key ∈ stored_keys tr).
Proof.
  intros Hp Hh Hfuel.
  destruct (helper_traced_ok fuel p h c Hp Hh Hfuel)
    as (v & c' & tr & Hrun & (Hsub & Hst & Hnd & _) & _).
  destruct (helper_traced_range fuel p h c Hp Hh Hfuel)
    as (v' & c'' & tr' & Hrun' & Hval & Hlen & Hdom).
  rewrite Hrun in Hrun'. inversion Hrun'; subst v' c'' tr'.
  exists v, c', tr. split; [done|].
  split; [by rewrite <- helper_traced_erase, Hrun|].
  repeat split; try done.
  intros key Hkey. apply elem_of_key_range. split; [by apply Hval|].
  apply elem_of_stored_keys in Hkey as [w Hin].
  by destruct (Hst key w Hin) as (_ & _ & ?).
Qed.

Lemma yield_sequences_default (fuel : nat) (p h : Z) (sequence : option (list Z)) :
  yield_sequences fuel p h sequence
  = yield_sequences fuel p h (Some (default [p] sequence)).
Proof. destruct fuel, sequence; reflexivity. Qed.

(** * Properties beyond the claims *)

(** X1: every sequence the generator yields is its starting sequence (the
    argument [sequence], or [[starting_position]] when it is [None])
    followed by [num_hops] nodes that form a walk from the starting
    position. *)
Theorem X1_yield_sequences_walks (fuel : nat) (p h : Z)
    (sequence : option (list Z)) (seqs : list (list Z)) :
  yield_sequences fuel p h sequence = Ok seqs →
  ∀ w, w ∈ seqs →
    ∃ t, w = default [p] sequence ++ t
         ∧ Z.of_nat (length t) = h
         ∧ is_walk (p :: t).
Proof.
  rewrite yield_sequences_default. apply yield_sequences_sound.
Qed.

Lemma X1_witness :
  yield_sequences 3 6 1 None = Ok [[6; 1]; [6; 7]; [6; 0]]
  ∧ ∀ w, w ∈ [[6; 1]; [6; 7]; [6; 0]] →
      ∃ t, w = default [6] None ++ t
           ∧ Z.of_nat (length t) = 1
           ∧ is_walk (6 :: t).
Proof.
  assert (yield_sequences 3 6 1 None = Ok [[6; 1]; [6; 7]; [6; 0]]) as H
    by reflexivity.
  exact (conj H (X1_yield_sequences_walks 3 6 1 None _ H)).
Defined.

(** X2: the generator yields every walk: whenever it returns, each walk of
    [num_hops] hops from the starting position is among the sequences, after
    the starting sequence. *)
Theorem X2_yield_sequences_complete (fuel : nat) (p h : Z)
    (sequence : option (list Z)) (seqs : list (list Z)) (t : list Z) :
  yield_sequences fuel p h sequence = Ok seqs →
  Z.of_nat (length t) = h → is_walk (p :: t) →
  default [p] sequence ++ t ∈ seqs.
Proof.
  rewrite yield_sequences_default. apply yield_sequences_complete.
Qed.

Lemma X2_witness :
  yield_sequences 3 6 1 None = Ok [[6; 1]; [6; 7]; [6; 0]]
  ∧ Z.of_nat (length [7]) = 1
  ∧ is_walk [6; 7]
  ∧ default [6] None ++ [7] ∈ [[6; 1]; [6; 7]; [6; 0]].
Proof.
  assert (yield_sequences 3 6 1 None = Ok [[6; 1]; [6; 7]; [6; 0]]) as H1
    by reflexivity.
  assert (Z.of_nat (length [7]) = 1) as H2 by reflexivity.
  assert (is_walk [6; 7]) as H3.
  { split; [|exact I]. apply (bool_decide_unpack (7 ∈ nbrs 6)).
    vm_compute. exact I. }
  exact (conj H1 (conj H2 (conj H3
           (X2_yield_sequences_complete 3 6 1 None _ [7] H1 H2 H3)))).
Defined.

(** X3: the generator yields no sequence twice. *)
Theorem X3_yield_sequences_distinct (fuel : nat) (p h : Z)
    (sequence : option (list Z)) (seqs : list (list Z)) :
  yield_sequences fuel p h sequence = Ok seqs → NoDup seqs.
Proof.
  rewrite yield_sequences_default. apply yield_sequences_NoDup.
Qed.

Lemma X3_witness :
  yield_sequences 3 6 1 None = Ok [[6; 1]; [6; 7]; [6; 0]]
  ∧ NoDup [[6; 1]; [6; 7]; [6; 0]].
Proof.
  assert (yield_sequences 3 6 1 None = Ok [[6; 1]; [6; 7]; [6; 0]]) as H
    by reflexivity.
  exact (conj H (X3_yield_sequences_distinct 3 6 1 None _ H)).
Defined.

(** X4: from every node but 5 the count at least doubles and at most
    triples with each hop: [count_sequences_rec] returns a value between
    [2^hops] and [3^hops]. *)
Theorem X4_rec_growth (fuel : nat) (p h : Z) :
  valid_node p → p ≠ 5 → 0 ≤ h → (Z.to_nat h < fuel)%nat →
  ∃ v, count_sequences_rec fuel p h = Ok v ∧ 2 ^ h ≤ v ≤ 3 ^ h.
Proof.
  intros Hp H5 Hh Hfuel. exists (count_spec (Z.to_nat h) p).
  split; [by apply count_sequences_rec_spec|].
  pose proof (count_spec_bounds (Z.to_nat h) p Hp H5) as Hb.
  by rewrite Z2Nat.id in Hb.
Qed.

Lemma X4_witness :
  valid_node 6 ∧ 6 ≠ 5 ∧ 0 ≤ 2 ∧ (Z.to_nat 2 < 3)%nat
  ∧ ∃ v, count_sequences_rec 3 6 2 = Ok v ∧ 2 ^ 2 ≤ v ≤ 3 ^ 2.
Proof.
  assert (valid_node 6) as H1 by (unfold valid_node; lia).
  assert (6 ≠ 5) as H2 by lia.
  assert (0 ≤ 2) as H3 by lia.
  assert (Z.to_nat 2 < 3)%nat as H4 by (simpl; lia).
  exact (conj H1 (conj H2 (conj H3 (conj H4
           (X4_rec_growth 3 6 2 H1 H2 H3 H4))))).
Defined.

(** X5: the count does not change when the start key is mirrored left to
    right (1-3, 4-6, 7-9) or top to bottom (1-7, 2-8, 3-9) on the keypad. *)
Theorem X5_rec_mirror (fuel : nat) (p h : Z) :
  valid_node p → 0 ≤ h → (Z.to_nat h < fuel)%nat →
  count_sequences_rec fuel (mirror_lr p) h = count_sequences_rec fuel p h
  ∧ count_sequences_rec fuel (mirror_ud p) h = count_sequences_rec fuel p h.
Proof.
  intros Hp Hh Hfuel. destruct (mirror_valid p Hp) as [Hlr Hud].
  rewrite !count_sequences_rec_spec by done.
  by rewrite count_spec_mirror_lr, count_spec_mirror_ud.
Qed.

Lemma X5_witness :
  valid_node 1 ∧ 0 ≤ 3 ∧ (Z.to_nat 3 < 4)%nat
  ∧ count_sequences_rec 4 (mirror_lr 1) 3 = count_sequences_rec 4 1 3
  ∧ count_sequences_rec 4 (mirror_ud 1) 3 = count_sequences_rec 4 1 3.
Proof.
  assert (valid_node 1) as H1 by (unfold valid_node; lia).
  assert (0 ≤ 3) as H2 by lia.
  assert (Z.to_nat 3 < 4)%nat as H3 by (simpl; lia).
  exact (conj H1 (conj H2 (conj H3 (X5_rec_mirror 4 1 3 H1 H2 H3)))).
Defined.

(** X6: as soon as there is a hop to make, [count_sequences_dyn] returns
    what [count_sequences], [count_sequences_rec] and [count_sequences_mem]
    return when they have the call depth they need. *)
Theorem X6_dyn_agrees (fuel : nat) (p h : Z) :
  valid_node p → 1 ≤ h → (Z.to_nat h < fuel)%nat →
  count_sequences_dyn p h = count_sequences fuel p h
  ∧ count_sequences_dyn p h = count_sequences_rec fuel p h
  ∧ count_sequences_dyn p h = count_sequences_mem fuel p h.
Proof.
  intros Hp Hh Hfuel.
  destruct (list_counters_agree fuel p h Hp Hh Hfuel) as (-> & -> & -> & ->).
  done.
Qed.

Lemma X6_witness :
  valid_node 6 ∧ 1 ≤ 2 ∧ (Z.to_nat 2 < 3)%nat
  ∧ count_sequences_dyn 6 2 = count_sequences 3 6 2
  ∧ count_sequences_dyn 6 2 = count_sequences_rec 3 6 2
  ∧ count_sequences_dyn 6 2 = count_sequences_mem 3 6 2.
Proof.
  assert (valid_node 6) as H1 by (unfold valid_node; lia).
  assert (1 ≤ 2) as H2 by lia.
  assert (Z.to_nat 2 < 3)%nat as H3 by (simpl; lia).
  exact (conj H1 (conj H2 (conj H3 (X6_dyn_agrees 3 6 2 H1 H2 H3)))).
Defined.



(** X8: a start position that is not a key of [NEIGHBORS_MAP] makes
    [count_sequences], [count_sequences_rec] and [count_sequences_mem]
    raise [KeyError] when [num_hops] is not 0; with [num_hops = 0] they do
    not look the position up and return 1. *)
Theorem X8_recursive_unknown_start (fuel : nat) (p h : Z) :
  ¬ valid_node p →
  (h ≠ 0 →
     count_sequences (S fuel) p h = Raise KeyError
     ∧ count_sequences_rec (S fuel) p h = Raise KeyError
     ∧ count_sequences_mem (S fuel) p h = Raise KeyError)
  ∧ count_sequences (S fuel) p 0 = Ok 1
  ∧ count_sequences_rec (S fuel) p 0 = Ok 1
  ∧ count_sequences_mem (S fuel) p 0 = Ok 1.
Proof.
  intros Hp. split; [|done]. intros Hh.
  unfold count_sequences, count_sequences_mem.
  cbn [yield_sequences count_sequences_rec helper].
  rewrite lookup_empty, !bool_decide_false by done.
  by rewrite neighbors_KeyError.
Qed.

Lemma X8_witness :
  ¬ valid_node 10
  ∧ (2 ≠ 0 →
       count_sequences 1 10 2 = Raise KeyError
       ∧ count_sequences_rec 1 10 2 = Raise KeyError
       ∧ count_sequences_mem 1 10 2 = Raise KeyError)
  ∧ count_sequences 1 10 0 = Ok 1
  ∧ count_sequences_rec 1 10 0 = Ok 1
  ∧ count_sequences_mem 1 10 0 = Ok 1.
Proof.
  assert (¬ valid_node 10) as H by (unfold valid_node; lia).
  exact (conj H (X8_recursive_unknown_start 0 10 2 H)).
Defined.

(** X9: [count_sequences_dyn] and [count_sequences_log] index a list of ten
    entries with the start position, so a start from -10 to -1 is taken
    from the end: it gives what the node [start + 10] gives. *)
Theorem X9_start_index_wraps (s h : Z) :
  -10 ≤ s < 0 →
  count_sequences_dyn s h = count_sequences_dyn (s + 10) h
  ∧ count_sequences_log s h = count_sequences_log (s + 10) h.
Proof.
  intros Hs.
  destruct (count_sequences_dyn_index h) as (cur & Hcur & Hdyn).
  destruct (count_sequences_log_index h) as (m & Hm & Hlog).
  rewrite !Hdyn, !Hlog.
  rewrite (py_index_wrap cur s), (py_index_wrap m s) by (rewrite ?Hcur, ?Hm; lia).
  by rewrite Hcur, Hm.
Qed.

Lemma X9_witness :
  -10 ≤ -1 < 0
  ∧ count_sequences_dyn (-1) 2 = count_sequences_dyn (-1 + 10) 2
  ∧ count_sequences_log (-1) 2 = count_sequences_log (-1 + 10) 2.
Proof.
  assert (-10 ≤ -1 < 0) as H by lia.
  exact (conj H (X9_start_index_wraps (-1) 2 H)).
Defined.

(** X10: a start position below -10 or above 9 makes [count_sequences_dyn]
    and [count_sequences_log] raise [IndexError], whatever the hop count. *)
Theorem X10_start_out_of_range (s h : Z) :
  s < -10 ∨ 10 ≤ s →
  count_sequences_dyn s h = Raise IndexError
  ∧ count_sequences_log s h = Raise IndexError.
Proof.
  intros Hs.
  destruct (count_sequences_dyn_index h) as (cur & Hcur & Hdyn).
  destruct (count_sequences_log_index h) as (m & Hm & Hlog).
  rewrite Hdyn, Hlog.
  by rewrite (py_index_out cur s), (py_index_out m s) by (rewrite ?Hcur, ?Hm; lia).
Qed.

Lemma X10_witness :
  (10 < -10 ∨ 10 ≤ 10)
  ∧ count_sequences_dyn 10 2 = Raise IndexError
  ∧ count_sequences_log 10 2 = Raise IndexError.
Proof.
  assert (10 < -10 ∨ 10 ≤ 10) as H by (right; lia).
  exact (conj H (X10_start_out_of_range 10 2 H)).
Defined.

(** X11: applied to an [n] by [m] and an [m] by [p] matrix with [n] and
    [m] positive, [matrix_multiply] returns the [n] by [p] matrix whose
    entry in row [i] and column [j] is the sum over [k] of
    [A[i][k] * B[k][j]].  The operands may be dictionaries of rows or lists
    of rows. *)
Theorem X11_matrix_multiply_product (n m p : nat) (A B : matrix) :
  is_mat n m A → is_mat m p B → (0 < n)%nat → (0 < m)%nat →
  ∃ C, matrix_multiply A B = Ok C
       ∧ dims n p C
       ∧ ∀ i j, (i < n)%nat → (j < p)%nat →
           get C i j
           = Zsum ((fun k => get (to_list A) i k * get (to_list B) k j)
                     <$> seq 0 m).
Proof.
  intros HA HB Hn Hm. exists (mmul (to_list A) (to_list B)).
  split; [by apply (matrix_multiply_spec n m p)|].
  destruct HA as (_ & HdA & _), HB as (_ & HdB & _).
  split; [by apply (dims_mmul n m p)|].
  intros i j Hi Hj. by apply (get_mmul n m p).
Qed.

Lemma X11_witness :
  is_mat 2 2 (MList [[1; 2]; [3; 4]]) ∧ is_mat 2 1 (MList [[5]; [6]])
  ∧ (0 < 2)%nat ∧ (0 < 2)%nat
  ∧ ∃ C, matrix_multiply (MList [[1; 2]; [3; 4]]) (MList [[5]; [6]]) = Ok C
         ∧ dims 2 1 C
         ∧ ∀ i j, (i < 2)%nat → (j < 1)%nat →
             get C i j
             = Zsum ((fun k => get (to_list (MList [[1; 2]; [3; 4]])) i k
                               * get (to_list (MList [[5]; [6]])) k j)
                       <$> seq 0 2).
Proof.
  assert (is_mat 2 2 (MList [[1; 2]; [3; 4]])) as H1.
  { apply is_mat_MList. split; [reflexivity|]. repeat constructor. }
  assert (is_mat 2 1 (MList [[5]; [6]])) as H2.
  { apply is_mat_MList. split; [reflexivity|]. repeat constructor. }
  assert (0 < 2)%nat as H3 by lia.
  exact (conj H1 (conj H2 (conj H3 (conj H3
           (X11_matrix_multiply_product 2 2 1 _ _ H1 H2 H3 H3))))).
Defined.

(** X12: [matrix_multiply] is associative on lists of rows of matching,
    positive dimensions: multiplying the product of [A] and [B] by [C]
    returns what multiplying [A] by the product of [B] and [C] returns. *)
Theorem X12_matrix_multiply_assoc (n m p q : nat) (A B C : list (list Z)) :
  dims n m A → dims m p B → dims p q C →
  (0 < n)%nat → (0 < m)%nat → (0 < p)%nat →
  (AB ← matrix_multiply (MList A) (MList B);
   matrix_multiply (MList AB) (MList C))
  = (BC ← matrix_multiply (MList B) (MList C);
     matrix_multiply (MList A) (MList BC)).
Proof.
  intros HA HB HC Hn Hm Hp.
  rewrite (matrix_multiply_spec n m p (MList A) (MList B))
    by (by apply is_mat_MList || lia).
  rewrite (matrix_multiply_spec m p q (MList B) (MList C))
    by (by apply is_mat_MList || lia).
  rewrite !bind_Ok. cbn [to_list].
  rewrite (matrix_multiply_spec n p q)
    by (by apply is_mat_MList, (dims_mmul n m p)
        || by apply is_mat_MList || lia).
  rewrite (matrix_multiply_spec n m q)
    by (by apply is_mat_MList, (dims_mmul m p q)
        || by apply is_mat_MList || lia).
  cbn [to_list]. f_equal. by apply (mmul_assoc n m p q).
Qed.

Lemma X12_witness :
  dims 1 2 [[1; 2]] ∧ dims 2 2 [[0; 1]; [1; 1]] ∧ dims 2 1 [[3]; [4]]
  ∧ (0 < 1)%nat ∧ (0 < 2)%nat ∧ (0 < 2)%nat
  ∧ (AB ← matrix_multiply (MList [[1; 2]]) (MList [[0; 1]; [1; 1]]);
     matrix_multiply (MList AB) (MList [[3]; [4]]))
    = (BC ← matrix_multiply (MList [[0; 1]; [1; 1]]) (MList [[3]; [4]]);
       matrix_multiply (MList [[1; 2]]) (MList BC)).
Proof.
  assert (dims 1 2 [[1; 2]]) as H1
    by (split; [reflexivity|repeat constructor]).
  assert (dims 2 2 [[0; 1]; [1; 1]]) as H2
    by (split; [reflexivity|repeat constructor]).
  assert (dims 2 1 [[3]; [4]]) as H3
    by (split; [reflexivity|repeat constructor]).
  assert (0 < 1)%nat as H4 by lia.
  assert (0 < 2)%nat as H5 by lia.
  exact (conj H1 (conj H2 (conj H3 (conj H4 (conj H5 (conj H5
           (X12_matrix_multiply_assoc 1 2 2 1 _ _ _ H1 H2 H3 H4 H5 H5))))))).
Defined.

(** X13: the matrix [count_sequences_log] starts [accum] with is neutral
    for [matrix_multiply]: multiplied with a 10 by 10 matrix, on either
    side, it returns the rows of that matrix. *)
Theorem X13_initial_accum_neutral (A : matrix) :
  is_mat 10 10 A →
  let accum0 :=
    (fun j : Z => (fun i : Z => if bool_decide (i = j) then 1 else 0)
                    <$> seqZ 0 10) <$> seqZ 0 10 in
  matrix_multiply (MList accum0) A = Ok (to_list A)
  ∧ matrix_multiply A (MList accum0) = Ok (to_list A).
Proof.
  intros HA. cbv zeta. rewrite identity_10.
  pose proof (is_mat_MList 10 10 _ (dims_identity 10)) as HI.
  rewrite (matrix_multiply_spec 10 10 10 _ _ HI HA) by lia.
  rewrite (matrix_multiply_spec 10 10 10 _ _ HA HI) by lia.
  destruct HA as (_ & HdA & _). cbn [to_list].
  by rewrite (mmul_identity_l 10 10), (mmul_identity_r 10 10) by (done || lia).
Qed.

Lemma X13_witness :
  is_mat 10 10 (MDict NEIGHBORS_MATRIX)
  ∧ let accum0 :=
      (fun j : Z => (fun i : Z => if bool_decide (i = j) then 1 else 0)
                      <$> seqZ 0 10) <$> seqZ 0 10 in
    matrix_multiply (MList accum0) (MDict NEIGHBORS_MATRIX)
    = Ok (to_list (MDict NEIGHBORS_MATRIX))
    ∧ matrix_multiply (MDict NEIGHBORS_MATRIX) (MList accum0)
      = Ok (to_list (MDict NEIGHBORS_MATRIX)).
Proof.
  exact (conj is_mat_NEIGHBORS_MATRIX
           (X13_initial_accum_neutral _ is_mat_NEIGHBORS_MATRIX)).
Defined.

(** X14: [matrix_multiply] reads the first row of each operand before it
    loops, so an empty list of rows on the left, or on the right of a list
    with a row, makes it raise [IndexError]. *)
Theorem X14_matrix_multiply_empty (B : matrix) (a : list Z) (l : list (list Z)) :
  matrix_multiply (MList []) B = Raise IndexError
  ∧ matrix_multiply (MList (a :: l)) (MList []) = Raise IndexError.
Proof. split; reflexivity. Qed.

(** X15: for every hop count, the loop of [count_sequences_log] over the
    characters of [reversed(bin(num_hops)[2:])] ends with [accum] equal to
    the power of [NEIGHBORS_MATRIX] whose exponent is the absolute value of
    [num_hops]. *)
Theorem X15_log_loop_power (h : Z) :
  ∃ P, for_in (enumerate (reversed (str_from 2 (bin h)))) log_body
         {| accum :=
              (fun j => (fun i => if bool_decide (i = j) then 1 else 0)
                          <$> seqZ 0 10) <$> seqZ 0 10;
            power_of_2 := None |}
       = Ok {| accum := mpow 10 (to_list (MDict NEIGHBORS_MATRIX))
                          (Z.to_nat (Z.abs h));
               power_of_2 := Some P |}.
Proof.
  rewrite identity_10. destruct (log_loop _ (bits_nonempty h)) as (P & ->).
  exists P. by rewrite bits_value_bin.
Qed.

(** X16: for every valid start and every hop count, [count_sequences_log]
    returns the value of the recurrence over the entries of
    [NEIGHBORS_MATRIX]: 1 for no hop, and for one more hop the sum over all
    nodes [j] of [NEIGHBORS_MATRIX[start][j]] times the value for [j]. *)
Theorem X16_log_recurrence (p h : Z) :
  valid_node p → 0 ≤ h →
  count_sequences_log p h = Ok (count_mat (Z.to_nat h) (Z.to_nat p)).
Proof.
  intros Hp Hh. rewrite count_sequences_log_spec by done.
  by rewrite Z.abs_eq.
Qed.

Lemma X16_witness :
  valid_node 3 ∧ 0 ≤ 2
  ∧ count_sequences_log 3 2 = Ok (count_mat (Z.to_nat 2) (Z.to_nat 3)).
Proof.
  assert (valid_node 3) as H1 by (unfold valid_node; lia).
  assert (0 ≤ 2) as H2 by lia.
  exact (conj H1 (conj H2 (X16_log_recurrence 3 2 H1 H2))).
Defined.

(** X17: the characters [count_sequences_log] iterates over are never
    empty, and the ones equal to ["1"], weighted by their position as bits,
    add up to the absolute value of [num_hops]. *)
Theorem X17_bits_of_hops (h : Z) :
  reversed (str_from 2 (bin h)) ≠ []
  ∧ bits_value (reversed (str_from 2 (bin h))) = Z.to_nat (Z.abs h).
Proof. split; [apply bits_nonempty | apply bits_value_bin]. Qed.

(** X18: called with a cache whose entries are values of the recurrence,
    the helper returns the value of the recurrence and leaves a cache that
    still has every old entry and whose entries are values of the
    recurrence. *)
Theorem X18_helper_sound_cache (fuel : nat) (p h : Z) (cache : gmap (Z * Z) Z) :
  valid_node p → 0 ≤ h → (Z.to_nat h < fuel)%nat → cache_ok cache →
  ∃ cache', helper fuel p h cache = Ok (count_spec (Z.to_nat h) p, cache')
            ∧ cache ⊆ cache'
            ∧ cache_ok cache'.
Proof.
  intros Hp Hh Hfuel Hc.
  destruct (helper_spec fuel p h cache Hp Hh Hfuel Hc) as (c' & Hrun & Hc').
  destruct (helper_traced_facts fuel p h cache Hp Hh Hfuel)
    as (v & c'' & tr & _ & Hrun' & Hsub & _).
  rewrite Hrun in Hrun'. inversion Hrun'; subst. eauto.
Qed.

Lemma X18_witness :
  valid_node 6 ∧ 0 ≤ 2 ∧ (Z.to_nat 2 < 3)%nat ∧ cache_ok ∅
  ∧ ∃ cache', helper 3 6 2 ∅ = Ok (count_spec (Z.to_nat 2) 6, cache')
              ∧ ∅ ⊆ cache'
              ∧ cache_ok cache'.
Proof.
  assert (valid_node 6) as H1 by (unfold valid_node; lia).
  assert (0 ≤ 2) as H2 by lia.
  assert (Z.to_nat 2 < 3)%nat as H3 by (simpl; lia).
  exact (conj H1 (conj H2 (conj H3 (conj cache_ok_empty
           (X18_helper_sound_cache 3 6 2 ∅ H1 H2 H3 cache_ok_empty))))).
Defined.

(** X19: the cache grows linearly with the hops: after the call of the
    helper that [count_sequences_mem] makes, on an empty cache, the cache
    has at most [10 * num_hops] entries, each for a node 0..9 and a hop
    count from 1 to [num_hops]. *)
Theorem X19_cache_size (fuel : nat) (p h : Z) :
  valid_node p → 0 ≤ h → (Z.to_nat h < fuel)%nat →
  ∃ v cache', helper fuel p h ∅ = Ok (v, cache')
              ∧ (∀ key, is_Some (cache' !! key) →
                   valid_node key.1 ∧ 1 ≤ key.2 ≤ h)
              ∧ Z.of_nat (size cache') ≤ 10 * h.
Proof.
  intros Hp Hh Hfuel.
  destruct (helper_traced_facts fuel p h ∅ Hp Hh Hfuel)
    as (v & c' & tr & _ & Hrun & _ & _ & Hrange & _ & Hdom).
  exists v, c'. split; [done|].
  assert (∀ key, is_Some (c' !! key) → key ∈ key_range h) as Hkeys.
  { intros key Hkey. destruct (Hdom key Hkey) as [Hempty|Hin]; [|auto].
    rewrite lookup_empty in Hempty. by destruct Hempty. }
  split; [intros key Hkey; by apply elem_of_key_range, Hkeys|].
  rewrite <- length_map_to_list, <- (length_fmap fst).
  pose proof (length_in_key_range h ((map_to_list c').*1)
                (NoDup_fst_map_to_list c')) as Hlen.
  cut (length (map_to_list c').*1 ≤ 10 * Z.to_nat h)%nat; [lia|].
  apply Hlen. intros key ([k w] & -> & Hin)%list_elem_of_fmap.
  apply elem_of_map_to_list in Hin. apply Hkeys. simpl. eauto.
Qed.

Lemma X19_witness :
  valid_node 6 ∧ 0 ≤ 2 ∧ (Z.to_nat 2 < 3)%nat
  ∧ ∃ v cache', helper 3 6 2 ∅ = Ok (v, cache')
                ∧ (∀ key, is_Some (cache' !! key) →
                     valid_node key.1 ∧ 1 ≤ key.2 ≤ 2)
                ∧ Z.of_nat (size cache') ≤ 10 * 2.
Proof.
  assert (valid_node 6) as H1 by (unfold valid_node; lia).
  assert (0 ≤ 2) as H2 by lia.
  assert (Z.to_nat 2 < 3)%nat as H3 by (simpl; lia).
  exact (conj H1 (conj H2 (conj H3 (X19_cache_size 3 6 2 H1 H2 H3)))).
Defined.

(** X20: the memoized counter makes a number of calls of the helper that is
    linear in the hops: whatever the cache a call starts with, it leads to
    at most [30 * num_hops + 1] calls of the helper, itself included, and
    to at most [10 * num_hops] stores. *)
Theorem X20_helper_calls (fuel : nat) (p h : Z) (cache : gmap (Z * Z) Z) :
  valid_node p → 0 ≤ h → (Z.to_nat h < fuel)%nat →
  ∃ v cache' history,
    helper_traced fuel p h cache = Ok (v, cache', history)
    ∧ helper fuel p h cache = Ok (v, cache')
    ∧ Z.of_nat (length (stored_keys history)) ≤ 10 * h
    ∧ Z.of_nat (length (called_keys history)) ≤ 30 * h + 1.
Proof.
  intros Hp Hh Hfuel.
  destruct (helper_traced_facts fuel p h cache Hp Hh Hfuel)
    as (v & c' & tr & Hrun & Hrun' & _ & Hnd & Hrange & Hcalls & _).
  exists v, c', tr. split; [done|]. split; [done|].
  pose proof (length_in_key_range h _ Hnd Hrange). lia.
Qed.

Lemma X20_witness :
  valid_node 6 ∧ 0 ≤ 2 ∧ (Z.to_nat 2 < 3)%nat
  ∧ ∃ v cache' history,
      helper_traced 3 6 2 ∅ = Ok (v, cache', history)
      ∧ helper 3 6 2 ∅ = Ok (v, cache')
      ∧ Z.of_nat (length (stored_keys history)) ≤ 10 * 2
      ∧ Z.of_nat (length (called_keys history)) ≤ 30 * 2 + 1.
Proof.
  assert (valid_node 6) as H1 by (unfold valid_node; lia).
  assert (0 ≤ 2) as H2 by lia.
  assert (Z.to_nat 2 < 3)%nat as H3 by (simpl; lia).
  exact (conj H1 (conj H2 (conj H3 (X20_helper_calls 3 6 2 ∅ H1 H2 H3)))).
Defined.
